(** * Relative-efficiency aggregation of [book/sqmc/sqmc_as_dim_grows.py]

    The script compares four particle filters (bootstrap / guided, each driven
    by pseudo-random or quasi-random numbers) on linear Gaussian models of
    growing dimension.  This development embeds the parts of the script that
    are not calls into external libraries:

    - the registry of Feynman-Kac problems [models] (lines 44-53),
    - the aggregation loop that fills [results_mse] (lines 61-77),
    - the construction of the data frame [df] and of its [fk_qmc] column
      (lines 79-80).

    Numbers.  numpy's float64 values are modelled by real numbers extended
    with the three special values of IEEE 754 (plus infinity, minus infinity,
    not-a-number): finite values are computed in exact arithmetic, so rounding
    and overflow are left out, while the special values that numpy returns
    for [log10 0], for [inf - inf] and for the mean of an empty array are
    kept.  numpy signals those cases by a warning, never by an exception.

    Most results below rest on the flow of data and on the propagation of
    the special values only, which float64 shares.  Those that rest on the
    exactness of finite arithmetic are worded "in exact arithmetic": on
    float64, where sums, quotients and logarithms round and a square can
    overflow or underflow, they need not hold bit for bit. *)

From Stdlib Require Import Reals Lra Lia List String Ascii ZArith Bool.
From Stdlib Require Import Permutation DecimalString DecimalPos DecimalZ.
Import ListNotations.

Set Implicit Arguments.
Open Scope string_scope.
Open Scope list_scope.

(** ** numpy scalars *)

Inductive npfloat : Type :=
| Fin (x : R)
| PInf
| NInf
| NaN.

Definition is_finite (a : npfloat) : bool :=
  match a with Fin _ => true | _ => false end.

Definition np_add (a b : npfloat) : npfloat :=
  match a, b with
  | NaN, _ | _, NaN => NaN
  | Fin x, Fin y => Fin (x + y)
  | PInf, NInf | NInf, PInf => NaN
  | PInf, _ | _, PInf => PInf
  | NInf, _ | _, NInf => NInf
  end.

Definition np_neg (a : npfloat) : npfloat :=
  match a with
  | Fin x => Fin (- x)
  | PInf => NInf
  | NInf => PInf
  | NaN => NaN
  end.

(** [a - b] *)
Definition np_sub (a b : npfloat) : npfloat :=
  match a, b with
  | NaN, _ | _, NaN => NaN
  | Fin x, Fin y => Fin (x - y)
  | PInf, PInf | NInf, NInf => NaN
  | PInf, _ | _, NInf => PInf
  | NInf, _ | _, PInf => NInf
  end.

(** [a ** 2] *)
Definition np_square (a : npfloat) : npfloat :=
  match a with
  | Fin x => Fin (x * x)
  | PInf | NInf => PInf
  | NaN => NaN
  end.

(** Division of a sum by the (positive) number of its terms. *)
Definition np_div_count (a : npfloat) (n : nat) : npfloat :=
  match a with
  | Fin x => Fin (x / INR n)
  | _ => a
  end.

Definition log10 (x : R) : R := ln x / ln 10.

(** [np.log10]: minus infinity at zero and not-a-number below it, each with a
    RuntimeWarning only. *)
Definition np_log10 (a : npfloat) : npfloat :=
  match a with
  | Fin x =>
      if Rlt_dec 0 x then Fin (log10 x)
      else if Req_dec_T x 0 then NInf
      else NaN
  | PInf => PInf
  | NInf => NaN
  | NaN => NaN
  end.

Definition np_sum (l : list npfloat) : npfloat :=
  fold_right np_add (Fin 0) l.

(** [np.mean]: the sum over the count; for an empty array this is [0.0 / 0],
    that is not-a-number ("Mean of empty slice" is a warning). *)
Definition np_mean (l : list npfloat) : npfloat :=
  match l with
  | [] => NaN
  | _ :: _ => np_div_count (np_sum l) (List.length l)
  end.

(** [np.var] with its default [ddof = 0]: the mean of the squared deviations
    from the mean. *)
Definition np_var (l : list npfloat) : npfloat :=
  np_mean (map (fun x => np_square (np_sub x (np_mean l))) l).

(** ** Python values used by the script *)

(** ['%i' % d] *)
Definition fmt_i (d : Z) : string := NilZero.string_of_int (Z.to_int d).

(** [range(start, stop, step)] for a positive step. *)
Definition py_range (start stop step : Z) : list Z :=
  map (fun i => (start + step * Z.of_nat i)%Z)
      (seq 0 (Z.to_nat ((stop - start + step - 1) / step))).

(** [range(n)] *)
Definition range (n : nat) : list nat := seq 0 n.

(** Line 41: [dims = range(5, 21, 5)], and line 40: [T = 50]. *)
Definition dims : list Z := py_range 5 21 5.
Definition T : nat := 50.

(** The exceptions the modelled lines can raise. *)
Inductive exn : Type :=
| IndexError
| NameError (name : string)
| KeyError (key : string).

Inductive outcome (A : Type) : Type :=
| Ok (a : A)
| Raise (e : exn).
Arguments Ok {A} a.
Arguments Raise {A} e.

(** One entry of [summaries.moments]: the dictionary with keys ['mean'] and
    ['var'], each an array over the coordinates of the state. *)
Record moment : Type := { mean : list npfloat; var : list npfloat }.

(** One element of the list returned by [particles.multiSMC]: the name of the
    problem, the driving mode, and the moments collected by the run
    ([r['output'].summaries.moments]). *)
Record record : Type := {
  r_fk : string;
  r_qmc : bool;
  r_moments : list moment
}.

(** One dictionary appended to [results_mse] (line 76). *)
Record row : Type := {
  row_fk : string;
  row_dim : Z;
  row_qmc : bool;
  row_t : nat;
  row_log10_gain : npfloat
}.

(** ** Line 65: the estimate of a run at time [t]

    [r['output'].summaries.moments[t]['mean'][0]]; both subscripts raise
    IndexError when out of range ([t] comes from [range(T)], so it is never
    negative). *)
Definition estimate (t : nat) (r : record) : outcome npfloat :=
  match nth_error (r_moments r) t with
  | None => Raise IndexError
  | Some m =>
      match mean m with
      | [] => Raise IndexError
      | x :: _ => Ok x
      end
  end.

(** Evaluation of a list comprehension whose element expression may raise:
    elements are computed from left to right and the first exception ends it. *)
Fixpoint map_outcome {A B : Type} (f : A -> outcome B) (l : list A)
  : outcome (list B) :=
  match l with
  | [] => Ok []
  | a :: l' =>
      match f a with
      | Raise e => Raise e
      | Ok b =>
          match map_outcome f l' with
          | Raise e => Raise e
          | Ok bs => Ok (b :: bs)
          end
      end
  end.

(** The filter of lines 68-69: [r['qmc']==qmc and r['fk']==type_fk+'_%i'%d]. *)
Definition selected (d : Z) (type_fk : string) (qmc : bool) (r : record) : bool :=
  Bool.eqb (r_qmc r) qmc && String.eqb (r_fk r) (type_fk ++ "_" ++ fmt_i d)%string.

(** Lines 68-69: [est]. *)
Definition est (results : list record) (d : Z) (t : nat)
    (type_fk : string) (qmc : bool) : outcome (list npfloat) :=
  map_outcome (estimate t) (filter (selected d type_fk qmc) results).

(** ** The interpreter state seen by lines 61-80

    [base_mean] and [base_mse] are module-level variables assigned in one
    iteration of the loop and read in later ones: [None] stands for a name
    that is not bound yet (reading it raises NameError).  [results_mse] is
    the list being filled.  [trace] is a ghost log, in program order, of the
    assignments of lines 71-72 and of the computations of lines 74-77; the
    program never reads it. *)

Inductive event : Type :=
| SetBase (d : Z) (t : nat) (mean_written mse_written : npfloat)
| Cell (d : Z) (t : nat) (type_fk : string) (qmc : bool)
       (mean_read mse_read : npfloat) (mse log10_gain : npfloat).

Record globals : Type := {
  base_mean : option npfloat;
  base_mse : option npfloat;
  results_mse : list row;
  trace : list event
}.

(** Computations that read and write the globals and may raise; the state
    reached when an exception is raised is kept. *)
Definition M (A : Type) : Type := globals -> outcome A * globals.

Definition ret {A : Type} (a : A) : M A := fun s => (Ok a, s).

Definition bind {A B : Type} (m : M A) (f : A -> M B) : M B :=
  fun s =>
    match m s with
    | (Ok a, s') => f a s'
    | (Raise e, s') => (Raise e, s')
    end.

Declare Scope py_scope.
Delimit Scope py_scope with py.
Notation "x <- m ;; k" := (bind m (fun x => k))
  (at level 61, m at next level, right associativity) : py_scope.
Notation "m ;; k" := (bind m (fun _ => k))
  (at level 61, right associativity) : py_scope.
Open Scope py_scope.

Definition lift {A : Type} (o : outcome A) : M A := fun s => (o, s).

(** Reading a global name. *)
Definition read_base_mean : M npfloat :=
  fun s =>
    match base_mean s with
    | Some v => (Ok v, s)
    | None => (Raise (NameError "base_mean"), s)
    end.

Definition read_base_mse : M npfloat :=
  fun s =>
    match base_mse s with
    | Some v => (Ok v, s)
    | None => (Raise (NameError "base_mse"), s)
    end.

(** Lines 71-72. *)
Definition assign_base (d : Z) (t : nat) (m v : npfloat) : M unit :=
  fun s =>
    (Ok tt,
     {| base_mean := Some m;
        base_mse := Some v;
        results_mse := results_mse s;
        trace := trace s ++ [SetBase d t m v] |}).

(** Lines 76-77: [results_mse.append(...)]. *)
Definition append_row (d : Z) (t : nat) (type_fk : string) (qmc : bool)
    (bm bv mse gain : npfloat) : M unit :=
  fun s =>
    (Ok tt,
     {| base_mean := base_mean s;
        base_mse := base_mse s;
        results_mse :=
          results_mse s ++
          [{| row_fk := type_fk; row_dim := d; row_qmc := qmc; row_t := t;
              row_log10_gain := gain |}];
        trace := trace s ++ [Cell d t type_fk qmc bm bv mse gain] |}).

(** Line 61: [results_mse = []]. *)
Definition reset_results : M unit :=
  fun s =>
    (Ok tt,
     {| base_mean := base_mean s;
        base_mse := base_mse s;
        results_mse := [];
        trace := trace s |}).

Definition get_results : M (list row) := fun s => (Ok (results_mse s), s).

(** A [for] statement over a list. *)
Fixpoint for_ {A : Type} (xs : list A) (body : A -> M unit) : M unit :=
  match xs with
  | [] => ret tt
  | x :: xs' => body x ;; for_ xs' body
  end.

(** Lines 68-77: the body of the innermost loop. *)
Definition cell_body (results : list record) (d : Z) (t : nat)
    (type_fk : string) (qmc : bool) : M unit :=
  e <- lift (est results d t type_fk qmc) ;;
  if String.eqb type_fk "guided" && Bool.eqb qmc false
  then assign_base d t (np_mean e) (np_var e)
  else
    bm <- read_base_mean ;;
    let mse := np_mean (map (fun x => np_square (np_sub x bm)) e) in
    bv <- read_base_mse ;;
    let log10_gain := np_add (np_neg (np_log10 mse)) (np_log10 bv) in
    append_row d t type_fk qmc bm bv mse log10_gain.

(** Lines 66-77: the two inner loops, for one dimension and one time. *)
Definition block (results : list record) (d : Z) (t : nat) : M unit :=
  for_ ["guided"; "boot"] (fun type_fk =>
    for_ [false; true] (fun qmc =>
      cell_body results d t type_fk qmc)).

(** Lines 61-77. *)
Definition aggregate (results : list record) (ds : list Z) (nT : nat) : M unit :=
  reset_results ;;
  for_ ds (fun d =>
    for_ (range nT) (fun t =>
      block results d t)).

(** ** Lines 79-80: the data frame *)

Record table_row : Type := {
  col_fk : string;
  col_dim : Z;
  col_qmc : bool;
  col_t : nat;
  col_log10_gain : npfloat;
  col_fk_qmc : string
}.

(** [{True:' SQMC', False:' SMC'}] *)
Definition mode_suffix (qmc : bool) : string :=
  if qmc then " SQMC" else " SMC".

Definition label_row (r : row) : table_row :=
  {| col_fk := row_fk r; col_dim := row_dim r; col_qmc := row_qmc r;
     col_t := row_t r; col_log10_gain := row_log10_gain r;
     col_fk_qmc := (row_fk r ++ mode_suffix (row_qmc r))%string |}.

(** [pd.DataFrame(results_mse)] followed by the assignment of column
    [fk_qmc].  A frame built from an empty list has no column, and
    [df['fk']] then raises KeyError. *)
Definition build_table (rows : list row) : outcome (list table_row) :=
  match rows with
  | [] => Raise (KeyError "fk")
  | _ :: _ => Ok (map label_row rows)
  end.

(** Lines 61-80. *)
Definition format_results (results : list record) (ds : list Z) (nT : nat)
  : M (list table_row) :=
  aggregate results ds nT ;;
  rows <- get_results ;;
  lift (build_table rows).

(** ** Lines 44-53: the registry [models]

    The state-space model, the simulation of its data and the two classes of
    Feynman-Kac problems belong to the external library; they are abstract
    here.  [simulate i m] is the data drawn for [m] at the [i]-th iteration of
    the loop (the draw is random, so two iterations need not agree). *)

Section Registry.

Variables SSM Data : Type.
(** [ssm.MVLinearGauss_Guarniero_etal(alpha=alpha0, dx=d)] *)
Variable new_ssm : Z -> SSM.
(** [my_ssm.simulate(T)] *)
Variable simulate : nat -> SSM -> Data.

(** [ssm.Bootstrap(ssm=..., data=...)] and [ssm.GuidedPF(ssm=..., data=...)]. *)
Inductive problem : Type :=
| Bootstrap (ssm : SSM) (data : Data)
| GuidedPF (ssm : SSM) (data : Data).

(** An [OrderedDict]: keys in the order of their first insertion. *)
Definition odict : Type := list (string * problem).

(** [od[k] = v]: a key already present keeps its place and takes the new
    value, a new key goes to the end. *)
Fixpoint od_set (k : string) (v : problem) (od : odict) : odict :=
  match od with
  | [] => [(k, v)]
  | (k', v') :: od' =>
      if String.eqb k' k then (k, v) :: od' else (k', v') :: od_set k v od'
  end.

Definition od_keys (od : odict) : list string := map fst od.

(** Lines 47-53: one iteration of the loop over [dims]. *)
Definition models_step (od : odict) (i : nat) (d : Z) : odict :=
  let my_ssm := new_ssm d in
  let data := simulate i my_ssm in
  let od1 := od_set ("boot_" ++ fmt_i d) (Bootstrap my_ssm data) od in
  od_set ("guided_" ++ fmt_i d) (GuidedPF my_ssm data) od1.

Fixpoint models_loop (od : odict) (i : nat) (ds : list Z) : odict :=
  match ds with
  | [] => od
  | d :: ds' => models_loop (models_step od i d) (S i) ds'
  end.

(** Lines 44-53. *)
Definition models (ds : list Z) : odict := models_loop [] 0 ds.

End Registry.

(** ** The two-pass reading of the aggregation

    The quantities of each cell written as functions of the collection of
    results alone: first the statistics of the reference category
    (guided, pseudo-random) at [(d, t)], then the error and the gain of
    another category against them.  The theorems below compare the loop of
    lines 61-77 with these. *)

(** The estimates gathered for a cell (none when gathering them raises). *)
Definition values (results : list record) (d : Z) (t : nat)
    (type_fk : string) (qmc : bool) : list npfloat :=
  match est results d t type_fk qmc with
  | Ok l => l
  | Raise _ => []
  end.

Definition spec_base_mean (results : list record) (d : Z) (t : nat) : npfloat :=
  np_mean (values results d t "guided" false).

Definition spec_base_mse (results : list record) (d : Z) (t : nat) : npfloat :=
  np_var (values results d t "guided" false).

Definition spec_mse (results : list record) (d : Z) (t : nat)
    (type_fk : string) (qmc : bool) : npfloat :=
  np_mean (map (fun x => np_square (np_sub x (spec_base_mean results d t)))
               (values results d t type_fk qmc)).

Definition spec_log10_gain (results : list record) (d : Z) (t : nat)
    (type_fk : string) (qmc : bool) : npfloat :=
  np_add (np_neg (np_log10 (spec_mse results d t type_fk qmc)))
         (np_log10 (spec_base_mse results d t)).

(** The categories other than the reference one, in the order of the loops
    of lines 66-67. *)
Definition non_reference : list (string * bool) :=
  [("guided", true); ("boot", false); ("boot", true)].

Definition spec_row (results : list record) (d : Z) (t : nat)
    (c : string * bool) : row :=
  {| row_fk := fst c; row_dim := d; row_qmc := snd c; row_t := t;
     row_log10_gain := spec_log10_gain results d t (fst c) (snd c) |}.

Definition spec_cell (results : list record) (d : Z) (t : nat)
    (c : string * bool) : event :=
  Cell d t (fst c) (snd c)
       (spec_base_mean results d t) (spec_base_mse results d t)
       (spec_mse results d t (fst c) (snd c))
       (spec_log10_gain results d t (fst c) (snd c)).

(** The cells of the grid, dimension-major, then time, then category. *)
Definition grid {A : Type} (ds : list Z) (nT : nat)
    (f : Z -> nat -> list A) : list A :=
  flat_map (fun d => flat_map (fun t => f d t) (range nT)) ds.

Definition spec_rows (results : list record) (ds : list Z) (nT : nat) : list row :=
  grid ds nT (fun d t => map (spec_row results d t) non_reference).

Definition spec_trace (results : list record) (ds : list Z) (nT : nat) : list event :=
  grid ds nT (fun d t =>
    SetBase d t (spec_base_mean results d t) (spec_base_mse results d t)
    :: map (spec_cell results d t) non_reference).

(** The key of a row of the table. *)
Definition key (r : row) : Z * nat * string * bool :=
  (row_dim r, row_t r, row_fk r, row_qmc r).

Definition grid_keys (ds : list Z) (nT : nat) : list (Z * nat * string * bool) :=
  grid ds nT (fun d t => map (fun c => (d, t, fst c, snd c)) non_reference).

(** Every run of the collection carries an estimate for each of the times
    [0 .. nT-1]. *)
Definition covers (nT : nat) (results : list record) : bool :=
  forallb (fun r =>
    forallb (fun t => match estimate t r with Ok _ => true | Raise _ => false end)
            (range nT))
    results.

Definition is_cell_at (d : Z) (t : nat) (e : event) : Prop :=
  match e with
  | Cell d' t' _ _ _ _ _ _ => d' = d /\ t' = t
  | SetBase _ _ _ _ => False
  end.

(** ** Summaries of a statement's effect

    What a statement does to the globals, when that does not depend on the
    state it starts from: whether it raises, the values it leaves in
    [base_mean] and [base_mse] (if it assigns them), the rows it appends and
    the events it logs. *)

Record effect : Type := {
  eff_out : outcome unit;
  eff_base : option (npfloat * npfloat);
  eff_rows : list row;
  eff_trace : list event
}.

Definition apply_effect (e : effect) (s : globals) : outcome unit * globals :=
  (eff_out e,
   {| base_mean :=
        match eff_base e with Some b => Some (fst b) | None => base_mean s end;
      base_mse :=
        match eff_base e with Some b => Some (snd b) | None => base_mse s end;
      results_mse := results_mse s ++ eff_rows e;
      trace := trace s ++ eff_trace e |}).

Definition eff_nil : effect :=
  {| eff_out := Ok tt; eff_base := None; eff_rows := []; eff_trace := [] |}.

Definition eff_raise (x : exn) : effect :=
  {| eff_out := Raise x; eff_base := None; eff_rows := []; eff_trace := [] |}.

(** The effect of [e1] followed by [e2]; [e2] does not run when [e1] raises. *)
Definition eff_seq (e1 e2 : effect) : effect :=
  match eff_out e1 with
  | Raise _ => e1
  | Ok _ =>
      {| eff_out := eff_out e2;
         eff_base :=
           match eff_base e2 with Some b => Some b | None => eff_base e1 end;
         eff_rows := eff_rows e1 ++ eff_rows e2;
         eff_trace := eff_trace e1 ++ eff_trace e2 |}
  end.

Definition eff_concat (es : list effect) : effect :=
  fold_right eff_seq eff_nil es.

(** The cells of the categories [cats] at [(d, t)], computed against the
    statistics [bm] and [bv]. *)
Fixpoint cells_effect (results : list record) (d : Z) (t : nat)
    (bm bv : npfloat) (cats : list (string * bool)) : effect :=
  match cats with
  | [] => eff_nil
  | c :: cats' =>
      match est results d t (fst c) (snd c) with
      | Raise x => eff_raise x
      | Ok l =>
          let mse := np_mean (map (fun x => np_square (np_sub x bm)) l) in
          let gain := np_add (np_neg (np_log10 mse)) (np_log10 bv) in
          eff_seq
            {| eff_out := Ok tt; eff_base := None;
               eff_rows := [{| row_fk := fst c; row_dim := d; row_qmc := snd c;
                               row_t := t; row_log10_gain := gain |}];
               eff_trace := [Cell d t (fst c) (snd c) bm bv mse gain] |}
            (cells_effect results d t bm bv cats')
      end
  end.

Definition block_effect (results : list record) (d : Z) (t : nat) : effect :=
  match est results d t "guided" false with
  | Raise x => eff_raise x
  | Ok l0 =>
      eff_seq
        {| eff_out := Ok tt; eff_base := Some (np_mean l0, np_var l0);
           eff_rows := [];
           eff_trace := [SetBase d t (np_mean l0) (np_var l0)] |}
        (cells_effect results d t (np_mean l0) (np_var l0) non_reference)
  end.

Definition aggregate_effect (results : list record) (ds : list Z) (nT : nat)
  : effect :=
  eff_concat
    (map (fun d => eff_concat (map (fun t => block_effect results d t) (range nT)))
         ds).

(** ** The shape of a trace

    A cell event is justified at [(d, t)] against the statistics [bm], [bv]
    when it is the event of a category other than the reference, whose error
    and gain are computed from that category's estimates and from [bm], [bv]. *)

Definition cell_justified (results : list record) (d : Z) (t : nat)
    (bm bv : npfloat) (e : event) : Prop :=
  exists c l,
    In c non_reference /\
    est results d t (fst c) (snd c) = Ok l /\
    e = Cell d t (fst c) (snd c) bm bv
          (np_mean (map (fun x => np_square (np_sub x bm)) l))
          (np_add (np_neg (np_log10
                     (np_mean (map (fun x => np_square (np_sub x bm)) l))))
                  (np_log10 bv)).

(** The events of one pass through lines 66-77: nothing when gathering the
    reference estimates raised, else the assignment of the statistics
    followed by cell events justified against them. *)
Inductive block_trace (results : list record) (d : Z) (t : nat)
  : list event -> Prop :=
| block_trace_nil : block_trace results d t []
| block_trace_base (l0 : list npfloat) (cells : list event) :
    est results d t "guided" false = Ok l0 ->
    Forall (cell_justified results d t (np_mean l0) (np_var l0)) cells ->
    block_trace results d t (SetBase d t (np_mean l0) (np_var l0) :: cells).

Inductive run_trace (results : list record) : list event -> Prop :=
| run_trace_nil : run_trace results []
| run_trace_block (d : Z) (t : nat) (b tr : list event) :
    block_trace results d t b ->
    run_trace results tr ->
    run_trace results (b ++ tr).

(** The rows appended by the events of a trace. *)
Definition rows_of (tr : list event) : list row :=
  flat_map (fun e =>
    match e with
    | Cell d t type_fk qmc _ _ _ gain =>
        [{| row_fk := type_fk; row_dim := d; row_qmc := qmc; row_t := t;
            row_log10_gain := gain |}]
    | SetBase _ _ _ _ => []
    end) tr.

(** ** Concrete collections

    The interpreter state before line 61 (no name of the aggregation is
    bound yet), a run with a given trajectory of estimates, and the
    collections of the scenarios: [replications k d q xs] holds one run of
    problem [k_d] in mode [q] per element of [xs], of horizon 1, whose
    estimate at time 0 is that element. *)

Definition init_globals : globals :=
  {| base_mean := None; base_mse := None; results_mse := []; trace := [] |}.

Definition run_of (type_fk : string) (d : Z) (qmc : bool) (traj : list R) : record :=
  {| r_fk := (type_fk ++ "_" ++ fmt_i d)%string;
     r_qmc := qmc;
     r_moments :=
       map (fun x => {| mean := Fin x :: repeat (Fin 0) (Z.to_nat d - 1);
                        var := repeat (Fin 0) (Z.to_nat d) |}) traj |}.

Definition replications (type_fk : string) (d : Z) (qmc : bool) (xs : list R)
  : list record :=
  map (fun x => run_of type_fk d qmc [x]) xs.

(** Reference estimates 1, 1, 1, 3; every other category 2, 2, 2, 2. *)
Definition scenario_two : list record :=
  replications "guided" 5 false [1%R; 1%R; 1%R; 3%R] ++
  replications "guided" 5 true [2%R; 2%R; 2%R; 2%R] ++
  replications "boot" 5 false [2%R; 2%R; 2%R; 2%R] ++
  replications "boot" 5 true [2%R; 2%R; 2%R; 2%R].

(** Reference estimates 1, 1, 1, 3; guided quasi-random runs all at the
    reference mean 1.5. *)
Definition scenario_zero : list record :=
  replications "guided" 5 false [1%R; 1%R; 1%R; 3%R] ++
  replications "guided" 5 true [1.5%R; 1.5%R; 1.5%R; 1.5%R] ++
  replications "boot" 5 false [2%R; 2%R; 2%R; 2%R] ++
  replications "boot" 5 true [2%R; 2%R; 2%R; 2%R].

(** No run of the bootstrap filter at all. *)
Definition scenario_missing : list record :=
  replications "guided" 5 false [1%R; 1%R; 1%R; 3%R] ++
  replications "guided" 5 true [2%R; 2%R; 2%R; 2%R].

(** Guided quasi-random estimates equal, as a multiset, to the reference
    ones: first with a positive variance, then constant. *)
Definition scenario_equal : list record :=
  replications "guided" 5 false [1%R; 3%R] ++
  replications "guided" 5 true [3%R; 1%R].

Definition scenario_constant : list record :=
  replications "guided" 5 false [1%R; 1%R] ++
  replications "guided" 5 true [1%R; 1%R].

(** The outcomes of the loop of lines 61-77: it ends normally or on an
    IndexError of line 65. *)
Definition benign (o : outcome unit) : Prop :=
  o = Ok tt \/ o = Raise IndexError.

(** One run per problem of the script's sweep and per mode, each over the
    whole horizon [T]. *)
Definition scenario_full : list record :=
  flat_map (fun d =>
    [run_of "boot" d false (repeat 1%R T); run_of "boot" d true (repeat 2%R T);
     run_of "guided" d false (repeat 3%R T); run_of "guided" d true (repeat 4%R T)])
    dims.

(** The names inserted for dimension [d], in the order of lines 52-53. *)
Definition names_of (d : Z) : list string :=
  [("boot_" ++ fmt_i d)%string; ("guided_" ++ fmt_i d)%string].

(** ** Further notions used to describe the loop *)

(** The four categories, in the order of the loops of lines 66-67. *)
Definition categories : list (string * bool) :=
  ("guided", false) :: non_reference.

(** [a] is an initial segment of [b]. *)
Definition is_prefix {A : Type} (a b : list A) : Prop :=
  exists c, b = a ++ c.

(** The estimate of a run at time [t], not-a-number standing for the
    exception. *)
Definition estimate_or_nan (t : nat) (r : record) : npfloat :=
  match estimate t r with
  | Ok x => x
  | Raise _ => NaN
  end.

(** Line 92: [hue_order] of the violin plot. *)
Definition hue_order : list string := ["boot SMC"; "boot SQMC"; "guided SQMC"].


(** The two entries inserted at the [i]-th iteration of lines 46-53, for
    dimension [d]: both problems hold the same model and the same data. *)
Definition entries_of {SSM Data : Type} (new_ssm : Z -> SSM)
    (simulate : nat -> SSM -> Data) (i : nat) (d : Z)
  : list (string * problem SSM Data) :=
  [(("boot_" ++ fmt_i d)%string,
    Bootstrap (new_ssm d) (simulate i (new_ssm d)));
   (("guided_" ++ fmt_i d)%string,
    GuidedPF (new_ssm d) (simulate i (new_ssm d)))].

(** The reference estimates hold an infinity; every other category 2, 2. *)
Definition scenario_infinite : list record :=
  [{| r_fk := "guided_5"; r_qmc := false;
      r_moments := [{| mean := [Fin 1]; var := [Fin 0] |}] |};
   {| r_fk := "guided_5"; r_qmc := false;
      r_moments := [{| mean := [PInf]; var := [Fin 0] |}] |}] ++
  replications "guided" 5 true [2%R; 2%R] ++
  replications "boot" 5 false [2%R; 2%R] ++
  replications "boot" 5 true [2%R; 2%R].

(** ** Changing the unit of the estimates

    [map_estimate f r] is the run [r] with [f] applied to the estimate of
    each time (the first coordinate of each mean); [affine a c] sends a
    finite value [y] to [a * y + c]. *)




(** * Proofs *)

Unset Implicit Arguments.

(** ** Lemmas on the state monad and on effects *)

Lemma globals_eta (s : globals) :
  {| base_mean := base_mean s; base_mse := base_mse s;
     results_mse := results_mse s; trace := trace s |} = s.
Proof. destruct s; reflexivity. Qed.

Lemma apply_eff_nil (s : globals) : apply_effect eff_nil s = (Ok tt, s).
Proof.
  unfold apply_effect; simpl.
  rewrite !app_nil_r, globals_eta. reflexivity.
Qed.

Lemma apply_eff_seq (e1 e2 : effect) (s : globals) :
  apply_effect (eff_seq e1 e2) s =
  match apply_effect e1 s with
  | (Ok _, s') => apply_effect e2 s'
  | (Raise x, s') => (Raise x, s')
  end.
Proof.
  unfold eff_seq, apply_effect; simpl.
  destruct (eff_out e1) as [u|x] eqn:E1; simpl.
  - rewrite <- !app_assoc.
    destruct (eff_base e2) as [b2|]; destruct (eff_base e1) as [b1|]; reflexivity.
  - rewrite E1. reflexivity.
Qed.

(** A loop whose body has a state-independent effect has the sequence of
    its bodies' effects. *)
Lemma for_effect {A : Type} (body : A -> M unit) (f : A -> effect) (xs : list A) :
  (forall x s, In x xs -> body x s = apply_effect (f x) s) ->
  forall s, for_ xs body s = apply_effect (eff_concat (map f xs)) s.
Proof.
  induction xs as [|x xs IH]; intros Hbody s; simpl.
  - unfold ret. symmetry. apply apply_eff_nil.
  - unfold bind. rewrite apply_eff_seq, Hbody by (left; reflexivity).
    destruct (apply_effect (f x) s) as [[u|e] s']; [|reflexivity].
    apply IH. intros y s0 Hy. apply Hbody. right; exact Hy.
Qed.

Lemma block_run (results : list record) (d : Z) (t : nat) (s : globals) :
  block results d t s = apply_effect (block_effect results d t) s.
Proof.
  unfold block, block_effect, non_reference.
  cbn [for_ cells_effect fst snd].
  unfold cell_body, bind, lift, ret, assign_base, read_base_mean,
    read_base_mse, append_row.
  cbn [String.eqb Ascii.eqb Bool.eqb andb].
  destruct s as [bm0 bv0 rows0 tr0].
  destruct (est results d t "guided" false) as [l0|x0];
    [|unfold apply_effect; simpl; rewrite !app_nil_r; reflexivity].
  destruct (est results d t "guided" true) as [l1|x1];
    [|unfold apply_effect; simpl; rewrite !app_nil_r; reflexivity].
  destruct (est results d t "boot" false) as [l2|x2];
    [|unfold apply_effect; simpl; rewrite <- !app_assoc; reflexivity].
  destruct (est results d t "boot" true) as [l3|x3];
    unfold apply_effect; simpl; rewrite <- !app_assoc; reflexivity.
Qed.

Lemma aggregate_run (results : list record) (ds : list Z) (nT : nat) (s : globals) :
  aggregate results ds nT s =
  apply_effect (aggregate_effect results ds nT)
    {| base_mean := base_mean s; base_mse := base_mse s;
       results_mse := []; trace := trace s |}.
Proof.
  unfold aggregate, aggregate_effect, bind, reset_results.
  apply for_effect. intros d s1 _.
  apply for_effect. intros t s2 _.
  apply block_run.
Qed.

(** ** The trace of any run *)

Lemma run_trace_app (results : list record) (a b : list event) :
  run_trace results a -> run_trace results b -> run_trace results (a ++ b).
Proof.
  induction 1 as [|d t blk tr Hb Htr IH]; intros Hb'; simpl.
  - exact Hb'.
  - rewrite <- app_assoc. eapply run_trace_block; eauto.
Qed.

Lemma eff_seq_trace (results : list record) (e1 e2 : effect) :
  run_trace results (eff_trace e1) -> run_trace results (eff_trace e2) ->
  run_trace results (eff_trace (eff_seq e1 e2)).
Proof.
  intros H1 H2. unfold eff_seq.
  destruct (eff_out e1); simpl; [apply run_trace_app|]; assumption.
Qed.

Lemma eff_concat_trace (results : list record) (es : list effect) :
  Forall (fun e => run_trace results (eff_trace e)) es ->
  run_trace results (eff_trace (eff_concat es)).
Proof.
  induction 1 as [|e es He Hes IH]; simpl.
  - constructor.
  - apply eff_seq_trace; assumption.
Qed.

Lemma cells_effect_trace (results : list record) (d : Z) (t : nat)
    (bm bv : npfloat) (cats : list (string * bool)) :
  incl cats non_reference ->
  Forall (cell_justified results d t bm bv)
         (eff_trace (cells_effect results d t bm bv cats)).
Proof.
  induction cats as [|c cats IH]; intros Hin; simpl.
  - constructor.
  - destruct (est results d t (fst c) (snd c)) as [l|x] eqn:E; simpl.
    + unfold eff_seq; simpl. constructor.
      * exists c, l. repeat split; auto. apply Hin; left; reflexivity.
      * apply IH. intros y Hy. apply Hin; right; exact Hy.
    + constructor.
Qed.

Lemma block_effect_trace (results : list record) (d : Z) (t : nat) :
  block_trace results d t (eff_trace (block_effect results d t)).
Proof.
  unfold block_effect.
  destruct (est results d t "guided" false) as [l0|x] eqn:E.
  - unfold eff_seq; cbn [eff_out eff_trace app].
    apply block_trace_base; [exact E|].
    apply cells_effect_trace. apply incl_refl.
  - constructor.
Qed.

Lemma aggregate_effect_trace (results : list record) (ds : list Z) (nT : nat) :
  run_trace results (eff_trace (aggregate_effect results ds nT)).
Proof.
  unfold aggregate_effect.
  apply eff_concat_trace. apply Forall_forall. intros e He.
  apply in_map_iff in He. destruct He as [d [<- _]].
  apply eff_concat_trace. apply Forall_forall. intros e He.
  apply in_map_iff in He. destruct He as [t [<- _]].
  rewrite <- (app_nil_r (eff_trace _)).
  eapply run_trace_block; [apply block_effect_trace | constructor].
Qed.

Lemma cell_justified_is_cell (results : list record) (d : Z) (t : nat)
    (bm bv : npfloat) (e : event) :
  cell_justified results d t bm bv e -> is_cell_at d t e.
Proof.
  intros [c [l [_ [_ ->]]]]. simpl. split; reflexivity.
Qed.

(** The analysis of a cell event inside a trace: the last assignment of the
    statistics before it was made at the same [(d, t)], from the reference
    estimates of that [(d, t)], and the event holds those very values. *)
Lemma run_trace_cell (results : list record) (tr : list event) :
  run_trace results tr ->
  forall pre post d t k q bm bv mse g,
    tr = pre ++ Cell d t k q bm bv mse g :: post ->
    exists l0 l p1 p2,
      pre = p1 ++ SetBase d t bm bv :: p2 /\
      Forall (is_cell_at d t) p2 /\
      est results d t "guided" false = Ok l0 /\
      bm = np_mean l0 /\ bv = np_var l0 /\
      In (k, q) non_reference /\
      est results d t k q = Ok l /\
      mse = np_mean (map (fun x => np_square (np_sub x bm)) l) /\
      g = np_add (np_neg (np_log10 mse)) (np_log10 bv).
Proof.
  induction 1 as [|d0 t0 b tr Hb Htr IH]; intros pre post d t k q bm bv mse g Heq.
  - destruct pre; discriminate.
  - apply app_eq_app in Heq. destruct Heq as [l [[Hb1 Hb2]|[Hp1 Hp2]]].
    + destruct l as [|e l'].
      * simpl in Hb2. symmetry in Hb2.
        destruct (IH [] post d t k q bm bv mse g Hb2)
          as [l0 [l1 [p1 [p2 [Hnil _]]]]].
        destruct p1; discriminate.
      * simpl in Hb2. injection Hb2 as He Hpost. subst e.
        destruct Hb as [|l0 cells Hest Hcells]; [destruct pre; discriminate|].
        destruct pre as [|e0 pre']; [discriminate|].
        simpl in Hb1. injection Hb1 as He0 Hcells'. subst e0 cells.
        apply Forall_app in Hcells. destruct Hcells as [Hpre Hcell].
        inversion Hcell as [|? ? Hc _]; subst.
        destruct Hc as [c [l [Hin [Hl Hev]]]].
        injection Hev as -> -> -> -> -> -> -> ->.
        exists l0, l, [], pre'. simpl.
        repeat split; auto.
        -- eapply Forall_impl; [|exact Hpre].
           intros a Ha. eapply cell_justified_is_cell; exact Ha.
        -- destruct c; exact Hin.
    + destruct (IH l post d t k q bm bv mse g Hp2)
        as [l0 [l1 [p1 [p2 [Hl H']]]]].
      exists l0, l1, (b ++ p1), p2. split; [|exact H'].
      rewrite Hp1, Hl, app_assoc. reflexivity.
Qed.

(** ** Rows and events go together *)

Lemma rows_of_app (a b : list event) : rows_of (a ++ b) = rows_of a ++ rows_of b.
Proof. unfold rows_of. apply flat_map_app. Qed.

Lemma eff_seq_rows (e1 e2 : effect) :
  eff_rows e1 = rows_of (eff_trace e1) ->
  eff_rows e2 = rows_of (eff_trace e2) ->
  eff_rows (eff_seq e1 e2) = rows_of (eff_trace (eff_seq e1 e2)).
Proof.
  intros H1 H2. unfold eff_seq.
  destruct (eff_out e1); simpl; [|exact H1].
  rewrite rows_of_app, H1, H2. reflexivity.
Qed.

Lemma eff_concat_rows (es : list effect) :
  Forall (fun e => eff_rows e = rows_of (eff_trace e)) es ->
  eff_rows (eff_concat es) = rows_of (eff_trace (eff_concat es)).
Proof.
  induction 1 as [|e es He Hes IH]; simpl.
  - reflexivity.
  - apply eff_seq_rows; assumption.
Qed.

Lemma cells_effect_rows (results : list record) (d : Z) (t : nat)
    (bm bv : npfloat) (cats : list (string * bool)) :
  eff_rows (cells_effect results d t bm bv cats) =
  rows_of (eff_trace (cells_effect results d t bm bv cats)).
Proof.
  induction cats as [|c cats IH]; simpl.
  - reflexivity.
  - destruct (est results d t (fst c) (snd c)) as [l|x]; [|reflexivity].
    apply eff_seq_rows; [reflexivity | exact IH].
Qed.

Lemma block_effect_rows (results : list record) (d : Z) (t : nat) :
  eff_rows (block_effect results d t) =
  rows_of (eff_trace (block_effect results d t)).
Proof.
  unfold block_effect.
  destruct (est results d t "guided" false) as [l0|x]; [|reflexivity].
  apply eff_seq_rows; [reflexivity | apply cells_effect_rows].
Qed.

Lemma aggregate_effect_rows (results : list record) (ds : list Z) (nT : nat) :
  eff_rows (aggregate_effect results ds nT) =
  rows_of (eff_trace (aggregate_effect results ds nT)).
Proof.
  unfold aggregate_effect.
  apply eff_concat_rows. apply Forall_forall. intros e He.
  apply in_map_iff in He. destruct He as [d [<- _]].
  apply eff_concat_rows. apply Forall_forall. intros e He.
  apply in_map_iff in He. destruct He as [t [<- _]].
  apply block_effect_rows.
Qed.

(** ** Runs over a collection that covers the horizon *)

Lemma map_outcome_ok {A B : Type} (f : A -> outcome B) (l : list A) :
  (forall a, In a l -> exists b, f a = Ok b) ->
  exists bs, map_outcome f l = Ok bs /\ List.length bs = List.length l.
Proof.
  induction l as [|a l IH]; intros H; simpl.
  - exists []. split; reflexivity.
  - destruct (H a (or_introl eq_refl)) as [b ->].
    destruct IH as [bs [-> Hlen]]; [intros; apply H; right; assumption|].
    exists (b :: bs). split; [reflexivity | simpl; congruence].
Qed.

Lemma covers_estimate (nT : nat) (results : list record) (r : record) (t : nat) :
  covers nT results = true -> In r results -> t < nT ->
  exists x, estimate t r = Ok x.
Proof.
  unfold covers, range. intros Hc Hr Ht.
  rewrite forallb_forall in Hc. specialize (Hc r Hr).
  rewrite forallb_forall in Hc.
  specialize (Hc t). rewrite in_seq in Hc.
  assert (Hs : 0 <= t < 0 + nT) by lia. specialize (Hc Hs).
  destruct (estimate t r) as [x|e]; [exists x; reflexivity | discriminate].
Qed.

Lemma est_covers (nT : nat) (results : list record) (d : Z) (t : nat)
    (k : string) (q : bool) :
  covers nT results = true -> t < nT ->
  est results d t k q = Ok (values results d t k q).
Proof.
  intros Hc Ht. unfold values.
  destruct (map_outcome_ok (estimate t) (filter (selected d k q) results))
    as [bs [Hbs _]].
  - intros r Hr. apply filter_In in Hr. destruct Hr as [Hr _].
    eapply covers_estimate; eauto.
  - unfold est. rewrite Hbs. reflexivity.
Qed.

Lemma block_effect_complete (nT : nat) (results : list record) (d : Z) (t : nat) :
  covers nT results = true -> t < nT ->
  block_effect results d t =
  {| eff_out := Ok tt;
     eff_base := Some (spec_base_mean results d t, spec_base_mse results d t);
     eff_rows := map (spec_row results d t) non_reference;
     eff_trace :=
       SetBase d t (spec_base_mean results d t) (spec_base_mse results d t)
       :: map (spec_cell results d t) non_reference |}.
Proof.
  intros Hc Ht.
  unfold block_effect, non_reference. cbn [cells_effect fst snd].
  rewrite !(est_covers nT results _ _ _ _ Hc Ht).
  reflexivity.
Qed.

Lemma eff_concat_ok (es : list effect) :
  Forall (fun e => eff_out e = Ok tt) es ->
  eff_out (eff_concat es) = Ok tt /\
  eff_rows (eff_concat es) = flat_map eff_rows es /\
  eff_trace (eff_concat es) = flat_map eff_trace es.
Proof.
  induction 1 as [|e es He Hes IH]; simpl.
  - repeat split.
  - destruct IH as [Ho [Hr Ht]].
    unfold eff_seq. rewrite He. simpl. rewrite Ho, Hr, Ht. repeat split.
Qed.

Lemma flat_map_map_in {A B C : Type} (f : A -> B) (g : B -> list C)
    (h : A -> list C) (l : list A) :
  (forall a, In a l -> g (f a) = h a) ->
  flat_map g (map f l) = flat_map h l.
Proof.
  induction l as [|a l IH]; intros H; simpl.
  - reflexivity.
  - rewrite H by (left; reflexivity).
    rewrite IH by (intros; apply H; right; assumption). reflexivity.
Qed.

Lemma time_loop_complete (nT : nat) (results : list record) (d : Z) :
  covers nT results = true ->
  let e := eff_concat (map (fun t => block_effect results d t) (range nT)) in
  eff_out e = Ok tt /\
  eff_rows e =
    flat_map (fun t => map (spec_row results d t) non_reference) (range nT) /\
  eff_trace e =
    flat_map (fun t =>
      SetBase d t (spec_base_mean results d t) (spec_base_mse results d t)
      :: map (spec_cell results d t) non_reference) (range nT).
Proof.
  intros Hc e.
  assert (Hin : forall t, In t (range nT) -> t < nT).
  { intros t Ht. unfold range in Ht. apply in_seq in Ht. lia. }
  destruct (eff_concat_ok (map (fun t => block_effect results d t) (range nT)))
    as [Ho [Hr Ht]].
  - apply Forall_forall. intros x Hx. apply in_map_iff in Hx.
    destruct Hx as [t [<- Ht]].
    rewrite (block_effect_complete nT results d t Hc (Hin t Ht)). reflexivity.
  - subst e. split; [exact Ho|]. rewrite Hr, Ht. split.
    + apply flat_map_map_in. intros t Ht'.
      rewrite (block_effect_complete nT results d t Hc (Hin t Ht')). reflexivity.
    + apply flat_map_map_in. intros t Ht'.
      rewrite (block_effect_complete nT results d t Hc (Hin t Ht')). reflexivity.
Qed.

Lemma aggregate_effect_complete (nT : nat) (results : list record) (ds : list Z) :
  covers nT results = true ->
  eff_out (aggregate_effect results ds nT) = Ok tt /\
  eff_rows (aggregate_effect results ds nT) = spec_rows results ds nT /\
  eff_trace (aggregate_effect results ds nT) = spec_trace results ds nT.
Proof.
  intros Hc. unfold aggregate_effect, spec_rows, spec_trace, grid.
  destruct (eff_concat_ok
    (map (fun d => eff_concat (map (fun t => block_effect results d t) (range nT))) ds))
    as [Ho [Hr Ht]].
  - apply Forall_forall. intros x Hx. apply in_map_iff in Hx.
    destruct Hx as [d [<- _]]. apply (time_loop_complete nT results d Hc).
  - split; [exact Ho|]. rewrite Hr, Ht. split.
    + apply flat_map_map_in. intros d _. apply (time_loop_complete nT results d Hc).
    + apply flat_map_map_in. intros d _. apply (time_loop_complete nT results d Hc).
Qed.

(** The run of lines 61-77 over a covering collection, in closed form. *)
Lemma aggregate_complete (nT : nat) (results : list record) (ds : list Z)
    (s : globals) :
  covers nT results = true ->
  fst (aggregate results ds nT s) = Ok tt /\
  results_mse (snd (aggregate results ds nT s)) = spec_rows results ds nT /\
  trace (snd (aggregate results ds nT s)) = trace s ++ spec_trace results ds nT.
Proof.
  intros Hc. rewrite aggregate_run.
  destruct (aggregate_effect_complete nT results ds Hc) as [Ho [Hr Ht]].
  unfold apply_effect; simpl. rewrite Ho, Hr, Ht. repeat split.
Qed.

(** The run of lines 61-77 over any collection. *)
Lemma aggregate_any (nT : nat) (results : list record) (ds : list Z)
    (s : globals) :
  exists tr,
    run_trace results tr /\
    trace (snd (aggregate results ds nT s)) = trace s ++ tr /\
    results_mse (snd (aggregate results ds nT s)) = rows_of tr /\
    fst (aggregate results ds nT s) = eff_out (aggregate_effect results ds nT).
Proof.
  exists (eff_trace (aggregate_effect results ds nT)).
  rewrite aggregate_run. unfold apply_effect; simpl.
  repeat split.
  - apply aggregate_effect_trace.
  - apply aggregate_effect_rows.
Qed.

(** ** The values of the script *)

Example dims_value : dims = [5; 10; 15; 20]%Z.
Proof. reflexivity. Qed.

Example fmt_i_values :
  fmt_i 5 = "5" /\ fmt_i 20 = "20" /\ fmt_i 0 = "0" /\ fmt_i (-3) = "-3".
Proof. repeat split. Qed.

Example selected_guided_20 :
  selected 20 "guided" true (run_of "guided" 20 true []) = true /\
  selected 20 "guided" false (run_of "guided" 20 true []) = false /\
  selected 20 "boot" true (run_of "guided" 20 true []) = false /\
  selected 5 "guided" true (run_of "guided" 20 true []) = false.
Proof. repeat split. Qed.

Example estimate_out_of_range :
  estimate 1 (run_of "boot" 5 false [2%R]) = Raise IndexError /\
  estimate 0 (run_of "boot" 5 false [2%R]) = Ok (Fin 2).
Proof. split; reflexivity. Qed.

Example label_values :
  col_fk_qmc (label_row {| row_fk := "boot"; row_dim := 5; row_qmc := true;
                           row_t := 0; row_log10_gain := NaN |}) = "boot SQMC" /\
  col_fk_qmc (label_row {| row_fk := "guided"; row_dim := 5; row_qmc := false;
                           row_t := 0; row_log10_gain := NaN |}) = "guided SMC".
Proof. split; reflexivity. Qed.

Example empty_frame_has_no_column : build_table [] = Raise (KeyError "fk").
Proof. reflexivity. Qed.

(** A run over a trajectory that is too short stops on the IndexError of
    line 65, keeping what was computed before. *)
Example short_trajectory_raises :
  fst (aggregate scenario_two [5%Z] 2 init_globals) = Raise IndexError /\
  List.length (results_mse (snd (aggregate scenario_two [5%Z] 2 init_globals))) = 3.
Proof.
  rewrite aggregate_run. unfold apply_effect. cbn [fst snd results_mse].
  split; reflexivity.
Qed.

(** ** Arithmetic of numpy scalars *)

Open Scope R_scope.

Lemma np_add_comm (a b : npfloat) : np_add a b = np_add b a.
Proof. destruct a, b; simpl; try reflexivity. f_equal; lra. Qed.

Lemma np_add_assoc (a b c : npfloat) :
  np_add a (np_add b c) = np_add (np_add a b) c.
Proof. destruct a, b, c; simpl; try reflexivity. f_equal; lra. Qed.

Lemma np_sum_perm (l l' : list npfloat) :
  Permutation l l' -> np_sum l = np_sum l'.
Proof.
  unfold np_sum. induction 1; simpl.
  - reflexivity.
  - congruence.
  - rewrite !np_add_assoc, (np_add_comm y x). reflexivity.
  - congruence.
Qed.

Lemma np_mean_perm (l l' : list npfloat) :
  Permutation l l' -> np_mean l = np_mean l'.
Proof.
  intros H. unfold np_mean.
  rewrite (np_sum_perm l l' H), (Permutation_length H).
  destruct l as [|a l]; destruct l' as [|a' l']; try reflexivity.
  - apply Permutation_nil in H. discriminate.
  - apply Permutation_sym, Permutation_nil in H. discriminate.
Qed.

Lemma np_log10_pos (x : R) : 0 < x -> np_log10 (Fin x) = Fin (log10 x).
Proof. intros H. simpl. destruct (Rlt_dec 0 x); [reflexivity | contradiction]. Qed.

Lemma np_log10_zero (x : R) : x = 0 -> np_log10 (Fin x) = NInf.
Proof.
  intros ->. simpl. destruct (Rlt_dec 0 0) as [H|_]; [lra|].
  destruct (Req_dec_T 0 0) as [_|H]; [reflexivity | contradiction].
Qed.

(** A zero error or a zero reference variance never gives a finite gain. *)
Lemma gain_not_finite (mse bv : npfloat) :
  bv = Fin 0 \/ mse = Fin 0 ->
  is_finite (np_add (np_neg (np_log10 mse)) (np_log10 bv)) = false.
Proof.
  intros [-> | ->]; rewrite (np_log10_zero 0 eq_refl).
  - destruct (np_neg (np_log10 mse)); reflexivity.
  - simpl. destruct (np_log10 bv); reflexivity.
Qed.

Lemma gain_equal_errors (v : R) :
  0 < v ->
  np_add (np_neg (np_log10 (Fin v))) (np_log10 (Fin v)) = Fin 0.
Proof.
  intros Hv. rewrite (np_log10_pos v Hv). simpl. f_equal. lra.
Qed.

Lemma ln_div (x y : R) : 0 < x -> 0 < y -> ln (x / y) = ln x - ln y.
Proof.
  intros Hx Hy. unfold Rdiv.
  rewrite ln_mult by (assumption || (apply Rinv_0_lt_compat; assumption)).
  rewrite ln_Rinv by assumption. lra.
Qed.

Lemma ln_10_pos : 0 < ln 10.
Proof. rewrite <- ln_1. apply ln_increasing; lra. Qed.

(** Bounds on a decimal logarithm of a ratio from integer inequalities:
    [a / n < log10 (p / q)] when [10^a * q^n < p^n], and the converse. *)
Lemma log10_ratio_lower (p q : Z) (a n : nat) :
  (0 < p)%Z -> (0 < q)%Z -> (0 < n)%nat ->
  (10 ^ Z.of_nat a * q ^ Z.of_nat n < p ^ Z.of_nat n)%Z ->
  INR a / INR n < log10 (IZR p / IZR q).
Proof.
  intros Hp Hq Hn Hlt.
  assert (HP : 0 < IZR p) by (apply IZR_lt; exact Hp).
  assert (HQ : 0 < IZR q) by (apply IZR_lt; exact Hq).
  assert (HN : 0 < INR n) by (apply lt_0_INR; exact Hn).
  assert (H10 := ln_10_pos).
  apply IZR_lt in Hlt. rewrite mult_IZR, <- !pow_IZR in Hlt.
  assert (Hpow10 : 0 < IZR 10 ^ a) by (apply pow_lt; lra).
  assert (HpowQ : 0 < IZR q ^ n) by (apply pow_lt; exact HQ).
  apply ln_increasing in Hlt; [|apply Rmult_lt_0_compat; assumption].
  rewrite ln_mult, !ln_pow in Hlt by (assumption || lra).
  unfold log10. rewrite ln_div by assumption.
  apply (Rmult_lt_reg_r (INR n * ln 10)); [apply Rmult_lt_0_compat; assumption|].
  replace (INR a / INR n * (INR n * ln 10)) with (INR a * ln 10) by (field; lra).
  replace ((ln (IZR p) - ln (IZR q)) / ln 10 * (INR n * ln 10))
    with (INR n * ln (IZR p) - INR n * ln (IZR q)) by (field; lra).
  lra.
Qed.

Lemma log10_ratio_upper (p q : Z) (a n : nat) :
  (0 < p)%Z -> (0 < q)%Z -> (0 < n)%nat ->
  (p ^ Z.of_nat n < 10 ^ Z.of_nat a * q ^ Z.of_nat n)%Z ->
  log10 (IZR p / IZR q) < INR a / INR n.
Proof.
  intros Hp Hq Hn Hlt.
  assert (HP : 0 < IZR p) by (apply IZR_lt; exact Hp).
  assert (HQ : 0 < IZR q) by (apply IZR_lt; exact Hq).
  assert (HN : 0 < INR n) by (apply lt_0_INR; exact Hn).
  assert (H10 := ln_10_pos).
  apply IZR_lt in Hlt. rewrite mult_IZR, <- !pow_IZR in Hlt.
  assert (HpowP : 0 < IZR p ^ n) by (apply pow_lt; exact HP).
  apply ln_increasing in Hlt; [|assumption].
  rewrite ln_mult, !ln_pow in Hlt
    by (assumption || lra || (apply pow_lt; (assumption || lra))).
  unfold log10. rewrite ln_div by assumption.
  apply (Rmult_lt_reg_r (INR n * ln 10)); [apply Rmult_lt_0_compat; assumption|].
  replace (INR a / INR n * (INR n * ln 10)) with (INR a * ln 10) by (field; lra).
  replace ((ln (IZR p) - ln (IZR q)) / ln 10 * (INR n * ln 10))
    with (INR n * ln (IZR p) - INR n * ln (IZR q)) by (field; lra).
  lra.
Qed.

(** [log10 (0.75 / 0.25)], the decimal logarithm of 3, lies between 198/415
    and 73/153, both of which round to 0.4771. *)
Lemma log10_scenario_bounds :
  0.4771 < log10 (0.75 / 0.25) < 0.4772.
Proof.
  replace (0.75 / 0.25) with (IZR 3 / IZR 1) by lra.
  split.
  - apply Rlt_trans with (INR 198 / INR 415).
    + rewrite !INR_IZR_INZ. simpl. lra.
    + apply log10_ratio_lower; try lia; reflexivity.
  - apply Rlt_trans with (INR 73 / INR 153).
    + apply log10_ratio_upper; try lia; reflexivity.
    + rewrite !INR_IZR_INZ. simpl. lra.
Qed.

(** ** The numbers of the scenario: reference estimates 1, 1, 1, 3 *)

Ltac np_eval :=
  unfold np_var, np_mean, np_sum;
  cbn [map fold_right np_add np_sub np_square np_div_count List.length INR].

Lemma scenario_base_mean :
  np_mean [Fin 1; Fin 1; Fin 1; Fin 3] = Fin 1.5.
Proof. np_eval. f_equal. lra. Qed.

Lemma scenario_base_mse :
  np_var [Fin 1; Fin 1; Fin 1; Fin 3] = Fin 0.75.
Proof.
  unfold np_var. rewrite scenario_base_mean.
  np_eval. f_equal. lra.
Qed.

Lemma scenario_mse_two :
  np_mean (map (fun x => np_square (np_sub x (Fin 1.5)))
               [Fin 2; Fin 2; Fin 2; Fin 2]) = Fin 0.25.
Proof. np_eval. f_equal. lra. Qed.

Lemma scenario_mse_zero :
  np_mean (map (fun x => np_square (np_sub x (Fin 1.5)))
               [Fin 1.5; Fin 1.5; Fin 1.5; Fin 1.5]) = Fin 0.
Proof. np_eval. f_equal. lra. Qed.

Lemma scenario_gain_two :
  np_add (np_neg (np_log10 (Fin 0.25))) (np_log10 (Fin 0.75)) =
  Fin (log10 (0.75 / 0.25)).
Proof.
  rewrite !np_log10_pos by lra. cbn [np_neg np_add]. f_equal.
  unfold log10. rewrite ln_div by lra. field.
  assert (H := ln_10_pos). lra.
Qed.

Lemma scenario_gain_zero :
  np_add (np_neg (np_log10 (Fin 0))) (np_log10 (Fin 0.75)) = PInf.
Proof.
  rewrite (np_log10_zero 0 eq_refl), np_log10_pos by lra. reflexivity.
Qed.

Close Scope R_scope.

(** ** The grid *)

Lemma in_range (nT t : nat) : In t (range nT) <-> t < nT.
Proof. unfold range. rewrite in_seq. lia. Qed.

Lemma in_grid {A : Type} (ds : list Z) (nT : nat) (f : Z -> nat -> list A) (x : A) :
  In x (grid ds nT f) <-> exists d t, In d ds /\ t < nT /\ In x (f d t).
Proof.
  unfold grid. rewrite in_flat_map. split.
  - intros [d [Hd Hx]]. apply in_flat_map in Hx. destruct Hx as [t [Ht Hx]].
    exists d, t. rewrite in_range in Ht. auto.
  - intros [d [t [Hd [Ht Hx]]]]. exists d. split; [exact Hd|].
    apply in_flat_map. exists t. rewrite in_range. auto.
Qed.

Lemma length_grid {A : Type} (ds : list Z) (nT : nat) (f : Z -> nat -> list A)
    (c : nat) :
  (forall d t, List.length (f d t) = c) ->
  List.length (grid ds nT f) = List.length ds * nT * c.
Proof.
  intros H. unfold grid.
  rewrite (flat_map_constant_length (c := nT * c)).
  - lia.
  - intros d _. rewrite (flat_map_constant_length (c := c)).
    + unfold range. rewrite length_seq. reflexivity.
    + intros t _. apply H.
Qed.

Lemma map_flat_map {A B C : Type} (g : B -> C) (f : A -> list B) (l : list A) :
  map g (flat_map f l) = flat_map (fun x => map g (f x)) l.
Proof.
  induction l as [|a l IH]; simpl.
  - reflexivity.
  - rewrite map_app, IH. reflexivity.
Qed.

Lemma map_key_spec_rows (results : list record) (ds : list Z) (nT : nat) :
  map key (spec_rows results ds nT) = grid_keys ds nT.
Proof.
  unfold spec_rows, grid_keys, grid.
  rewrite map_flat_map. apply flat_map_ext. intros d.
  rewrite map_flat_map. apply flat_map_ext. intros t.
  reflexivity.
Qed.

Lemma NoDup_flat_map {A B : Type} (f : A -> list B) (l : list A) :
  NoDup l ->
  (forall a, In a l -> NoDup (f a)) ->
  (forall a b x, In a l -> In b l -> In x (f a) -> In x (f b) -> a = b) ->
  NoDup (flat_map f l).
Proof.
  induction 1 as [|a l Ha Hl IH]; intros Hf Hdisj; simpl.
  - constructor.
  - apply NoDup_app.
    + apply Hf. left; reflexivity.
    + apply IH.
      * intros b Hb. apply Hf. right; exact Hb.
      * intros b b' x Hb Hb'. apply Hdisj; right; assumption.
    + intros x Hx Hx'. apply in_flat_map in Hx'. destruct Hx' as [b [Hb Hxb]].
      apply Ha. rewrite (Hdisj a b x); auto.
      * left; reflexivity.
      * right; exact Hb.
Qed.

Lemma NoDup_grid_keys (ds : list Z) (nT : nat) :
  NoDup ds -> NoDup (grid_keys ds nT).
Proof.
  intros Hds. unfold grid_keys, grid.
  apply NoDup_flat_map; [exact Hds| |].
  - intros d _. apply NoDup_flat_map.
    + unfold range. apply seq_NoDup.
    + intros t _. unfold non_reference. simpl.
      repeat constructor; simpl; intuition discriminate.
    + intros t t' x _ _ Hx Hx'.
      apply in_map_iff in Hx. destruct Hx as [c [<- _]].
      apply in_map_iff in Hx'. destruct Hx' as [c' [Heq _]].
      congruence.
  - intros d d' x _ _ Hx Hx'.
    apply in_flat_map in Hx. destruct Hx as [t [_ Hx]].
    apply in_flat_map in Hx'. destruct Hx' as [t' [_ Hx']].
    apply in_map_iff in Hx. destruct Hx as [c [<- _]].
    apply in_map_iff in Hx'. destruct Hx' as [c' [Heq _]].
    congruence.
Qed.

(** ** Exceptions of the loop *)

Lemma map_outcome_raises {A B : Type} (f : A -> outcome B) (l : list A) (x : exn) :
  map_outcome f l = Raise x -> exists a, In a l /\ f a = Raise x.
Proof.
  induction l as [|a l IH]; simpl; [discriminate|].
  destruct (f a) as [b|e] eqn:E.
  - destruct (map_outcome f l) as [bs|e'] eqn:E'; [discriminate|].
    intros H. injection H as ->. destruct (IH eq_refl) as [a' [Ha' Hf]].
    exists a'. auto.
  - intros H. injection H as ->. exists a. auto.
Qed.

Lemma est_raises (results : list record) (d : Z) (t : nat) (k : string)
    (q : bool) (x : exn) :
  est results d t k q = Raise x -> x = IndexError.
Proof.
  intros H. apply map_outcome_raises in H. destruct H as [r [_ Hr]].
  unfold estimate in Hr.
  destruct (nth_error (r_moments r) t) as [m|]; [|congruence].
  destruct (mean m); congruence.
Qed.

Lemma eff_concat_benign (es : list effect) :
  Forall (fun e => benign (eff_out e)) es -> benign (eff_out (eff_concat es)).
Proof.
  induction 1 as [|e es He Hes IH]; simpl.
  - left; reflexivity.
  - unfold eff_seq. destruct (eff_out e) as [u|x] eqn:E; simpl.
    + exact IH.
    + rewrite E. exact He.
Qed.

Lemma cells_effect_benign (results : list record) (d : Z) (t : nat)
    (bm bv : npfloat) (cats : list (string * bool)) :
  benign (eff_out (cells_effect results d t bm bv cats)).
Proof.
  induction cats as [|c cats IH]; simpl.
  - left; reflexivity.
  - destruct (est results d t (fst c) (snd c)) as [l|x] eqn:E.
    + unfold eff_seq; simpl. exact IH.
    + right. simpl. f_equal. eapply est_raises; exact E.
Qed.

Lemma block_effect_benign (results : list record) (d : Z) (t : nat) :
  benign (eff_out (block_effect results d t)).
Proof.
  unfold block_effect.
  destruct (est results d t "guided" false) as [l0|x] eqn:E.
  - unfold eff_seq; cbn [eff_out]. apply cells_effect_benign.
  - right. simpl. f_equal. eapply est_raises; exact E.
Qed.

Lemma aggregate_benign (results : list record) (ds : list Z) (nT : nat)
    (s : globals) :
  benign (fst (aggregate results ds nT s)).
Proof.
  rewrite aggregate_run. unfold apply_effect; simpl.
  unfold aggregate_effect.
  apply eff_concat_benign. apply Forall_forall. intros e He.
  apply in_map_iff in He. destruct He as [d [<- _]].
  apply eff_concat_benign. apply Forall_forall. intros e He.
  apply in_map_iff in He. destruct He as [t [<- _]].
  apply block_effect_benign.
Qed.

(** ** The cells of a run *)

Lemma in_rows_of (tr : list event) (r : row) :
  In r (rows_of tr) ->
  exists pre post bm bv mse,
    tr = pre ++ Cell (row_dim r) (row_t r) (row_fk r) (row_qmc r)
                     bm bv mse (row_log10_gain r) :: post.
Proof.
  unfold rows_of. intros H. apply in_flat_map in H.
  destruct H as [e [He Hr]].
  destruct e as [d t m v | d t k q bm bv mse g]; simpl in Hr; [contradiction|].
  destruct Hr as [<-|[]]. simpl.
  apply in_split in He. destruct He as [pre [post ->]].
  exists pre, post, bm, bv, mse. reflexivity.
Qed.

Lemma spec_cell_in_trace (results : list record) (ds : list Z) (nT : nat)
    (d : Z) (t : nat) (c : string * bool) :
  In d ds -> t < nT -> In c non_reference ->
  exists pre post,
    spec_trace results ds nT = pre ++ spec_cell results d t c :: post.
Proof.
  intros Hd Ht Hc. apply in_split. unfold spec_trace. apply in_grid.
  exists d, t. repeat split; auto.
  right. apply in_map. exact Hc.
Qed.

Lemma spec_row_in_rows (results : list record) (ds : list Z) (nT : nat)
    (d : Z) (t : nat) (c : string * bool) :
  In d ds -> t < nT -> In c non_reference ->
  In (spec_row results d t c) (spec_rows results ds nT).
Proof.
  intros Hd Ht Hc. unfold spec_rows. apply in_grid.
  exists d, t. repeat split; auto. apply in_map. exact Hc.
Qed.

(** ** Claims *)

(** C1.  For every dimension [d] of the sweep, every time [t < nT] and every
    category [c] other than the reference one, a run over a collection that
    covers the horizon computes the cell: the estimates [l0] of the reference
    category and [l] of category [c] at [(d, t)] are gathered, and the error
    [mse] of the cell is the mean over [l] of the squared deviations from the
    mean of [l0], the reference category's mean (not the mean of [l]). *)
Theorem mse_against_reference_mean (results : list record) (ds : list Z)
    (nT : nat) (s0 : globals) (d : Z) (t : nat) (c : string * bool) :
  covers nT results = true -> In d ds -> t < nT -> In c non_reference ->
  exists l0 l pre post bv g,
    est results d t "guided" false = Ok l0 /\
    est results d t (fst c) (snd c) = Ok l /\
    trace (snd (aggregate results ds nT s0)) =
      trace s0 ++ pre ++
      Cell d t (fst c) (snd c) (np_mean l0) bv
           (np_mean (map (fun x => np_square (np_sub x (np_mean l0))) l)) g
      :: post.
Proof.
  intros Hcov Hd Ht Hc.
  destruct (aggregate_complete nT results ds s0 Hcov) as [_ [_ Htr]].
  destruct (spec_cell_in_trace results ds nT d t c Hd Ht Hc) as [pre [post Hsplit]].
  exists (values results d t "guided" false),
         (values results d t (fst c) (snd c)),
         pre, post, (spec_base_mse results d t),
         (spec_log10_gain results d t (fst c) (snd c)).
  split; [apply (est_covers nT); assumption|].
  split; [apply (est_covers nT); assumption|].
  rewrite Htr, Hsplit. reflexivity.
Qed.

Lemma mse_against_reference_mean_witness :
  exists l0 l pre post bv g,
    est scenario_two 5 0 "guided" false = Ok l0 /\
    est scenario_two 5 0 "guided" true = Ok l /\
    trace (snd (aggregate scenario_two [5%Z] 1 init_globals)) =
      trace init_globals ++ pre ++
      Cell 5 0 "guided" true (np_mean l0) bv
           (np_mean (map (fun x => np_square (np_sub x (np_mean l0))) l)) g
      :: post.
Proof.
  exact (mse_against_reference_mean scenario_two [5%Z] 1 init_globals
           5%Z 0 ("guided", true)
           eq_refl (or_introl eq_refl) (le_n 1) (or_introl eq_refl)).
Defined.

(** C5.  In any run, started from any state, a cell of [(d, t)] is computed
    only after the statistics of the reference category were assigned at
    that same [(d, t)]: the assignment writes the mean of the reference
    estimates [l0] gathered at [(d, t)] and their variance, the mean of the
    squared deviations from that mean, and nothing but cells of the same
    [(d, t)] happens between that assignment and the cell. *)
Theorem baseline_before_cells (results : list record) (ds : list Z) (nT : nat)
    (s0 : globals) (pre post : list event) (d : Z) (t : nat) (k : string)
    (q : bool) (bm bv mse g : npfloat) :
  trace (snd (aggregate results ds nT s0)) =
    trace s0 ++ pre ++ Cell d t k q bm bv mse g :: post ->
  exists l0 p1 p2,
    est results d t "guided" false = Ok l0 /\
    pre = p1 ++
          SetBase d t (np_mean l0)
            (np_mean (map (fun x => np_square (np_sub x (np_mean l0))) l0))
          :: p2 /\
    Forall (is_cell_at d t) p2.
Proof.
  intros Htr.
  destruct (aggregate_any nT results ds s0) as [tr [Hrun [Htr' _]]].
  rewrite Htr' in Htr. apply app_inv_head in Htr.
  destruct (run_trace_cell results tr Hrun pre post d t k q bm bv mse g Htr)
    as [l0 [l [p1 [p2 [Hpre [Hp2 [Hl0 [Hbm [Hbv _]]]]]]]]].
  exists l0, p1, p2. split; [exact Hl0|]. split; [|exact Hp2].
  rewrite Hpre, Hbm, Hbv. reflexivity.
Qed.

(** C10.  In any run, started from any state (in particular one that holds
    statistics left by an earlier dimension, time or run), the values of
    [base_mean] and [base_mse] that a cell of [(d, t)] reads are the mean
    and the variance of the reference estimates gathered at that same
    [(d, t)]; and no read finds the names unbound. *)
Theorem cells_read_fresh_baseline (results : list record) (ds : list Z)
    (nT : nat) (s0 : globals) (pre post : list event) (d : Z) (t : nat)
    (k : string) (q : bool) (bm bv mse g : npfloat) :
  trace (snd (aggregate results ds nT s0)) =
    trace s0 ++ pre ++ Cell d t k q bm bv mse g :: post ->
  (exists l0,
     est results d t "guided" false = Ok l0 /\
     bm = np_mean l0 /\ bv = np_var l0) /\
  (forall name, fst (aggregate results ds nT s0) <> Raise (NameError name)).
Proof.
  intros Htr. split.
  - destruct (aggregate_any nT results ds s0) as [tr [Hrun [Htr' _]]].
    rewrite Htr' in Htr. apply app_inv_head in Htr.
    destruct (run_trace_cell results tr Hrun pre post d t k q bm bv mse g Htr)
      as [l0 [l [p1 [p2 [_ [_ [Hl0 [Hbm [Hbv _]]]]]]]]].
    exists l0. auto.
  - intros name H.
    destruct (aggregate_benign results ds nT s0) as [Ho|Ho];
      rewrite Ho in H; discriminate.
Qed.

Lemma scenario_two_trace :
  trace (snd (aggregate scenario_two [5%Z] 1 init_globals)) =
    trace init_globals ++
    [SetBase 5 0 (spec_base_mean scenario_two 5 0) (spec_base_mse scenario_two 5 0);
     spec_cell scenario_two 5 0 ("guided", true);
     spec_cell scenario_two 5 0 ("boot", false)] ++
    Cell 5 0 "boot" true
         (spec_base_mean scenario_two 5 0) (spec_base_mse scenario_two 5 0)
         (spec_mse scenario_two 5 0 "boot" true)
         (spec_log10_gain scenario_two 5 0 "boot" true)
    :: [].
Proof.
  exact (proj2 (proj2 (aggregate_complete 1 scenario_two [5%Z] init_globals eq_refl))).
Qed.

Lemma baseline_before_cells_witness :
  exists l0 p1 p2,
    est scenario_two 5 0 "guided" false = Ok l0 /\
    [SetBase 5 0 (spec_base_mean scenario_two 5 0) (spec_base_mse scenario_two 5 0);
     spec_cell scenario_two 5 0 ("guided", true);
     spec_cell scenario_two 5 0 ("boot", false)] =
    p1 ++
    SetBase 5 0 (np_mean l0)
      (np_mean (map (fun x => np_square (np_sub x (np_mean l0))) l0))
    :: p2 /\
    Forall (is_cell_at 5 0) p2.
Proof.
  exact (baseline_before_cells scenario_two [5%Z] 1 init_globals _ [] 5%Z 0
           "boot" true _ _ _ _ scenario_two_trace).
Defined.

Lemma cells_read_fresh_baseline_witness :
  (exists l0,
     est scenario_two 5 0 "guided" false = Ok l0 /\
     spec_base_mean scenario_two 5 0 = np_mean l0 /\
     spec_base_mse scenario_two 5 0 = np_var l0) /\
  (forall name,
     fst (aggregate scenario_two [5%Z] 1 init_globals) <> Raise (NameError name)).
Proof.
  exact (cells_read_fresh_baseline scenario_two [5%Z] 1 init_globals _ [] 5%Z 0
           "boot" true _ _ _ _ scenario_two_trace).
Defined.

Open Scope R_scope.

(** The value claimed for the scenario, [log10 (0.5625 / 0.25)], is below
    31/88. *)
Lemma log10_claimed_upper : log10 (0.5625 / 0.25) < 0.3523.
Proof.
  replace (0.5625 / 0.25) with (IZR 9 / IZR 4) by lra.
  apply Rlt_trans with (INR 31 / INR 88).
  - apply log10_ratio_upper; try lia; reflexivity.
  - rewrite !INR_IZR_INZ. simpl. lra.
Qed.

(** C2.  Every row of [results_mse], in any run, carries
    [-log10(mse) + log10(base_mse)], where [base_mse] is the variance of the
    reference estimates [l0] at the row's dimension and time and [mse] the
    mean squared deviation of the row's category's estimates [l] from the
    mean of [l0].  For reference estimates 1, 1, 1, 3 and estimates
    2, 2, 2, 2 of the row's category: [base_mean = 1.5], [base_mse = 0.75],
    [mse = 0.25], and the gain is [log10 (0.75 / 0.25)], between 0.4771 and
    0.4772. *)
Theorem log10_gain_formula (results : list record) (ds : list Z) (nT : nat)
    (s0 : globals) (r : row) :
  In r (results_mse (snd (aggregate results ds nT s0))) ->
  exists l0 l,
    est results (row_dim r) (row_t r) "guided" false = Ok l0 /\
    est results (row_dim r) (row_t r) (row_fk r) (row_qmc r) = Ok l /\
    In (row_fk r, row_qmc r) non_reference /\
    let bm := np_mean l0 in
    let bv := np_var l0 in
    let mse := np_mean (map (fun x => np_square (np_sub x bm)) l) in
    row_log10_gain r = np_add (np_neg (np_log10 mse)) (np_log10 bv) /\
    (l0 = [Fin 1; Fin 1; Fin 1; Fin 3] -> l = [Fin 2; Fin 2; Fin 2; Fin 2] ->
     bm = Fin 1.5 /\ bv = Fin 0.75 /\ mse = Fin 0.25 /\
     row_log10_gain r = Fin (log10 (0.75 / 0.25)) /\
     0.4771 < log10 (0.75 / 0.25) < 0.4772).
Proof.
  intros Hr.
  destruct (aggregate_any nT results ds s0) as [tr [Hrun [_ [Hrows _]]]].
  rewrite Hrows in Hr. apply in_rows_of in Hr.
  destruct Hr as [pre [post [bm [bv [mse Htr]]]]].
  destruct (run_trace_cell results tr Hrun _ _ _ _ _ _ _ _ _ _ Htr)
    as [l0 [l [p1 [p2 [_ [_ [Hl0 [Hbm [Hbv [Hin [Hl [Hmse Hg]]]]]]]]]]]].
  exists l0, l. split; [exact Hl0|]. split; [exact Hl|]. split; [exact Hin|].
  subst bm bv mse. cbv zeta. split; [exact Hg|].
  intros -> ->. rewrite Hg.
  rewrite scenario_base_mean, scenario_base_mse, scenario_mse_two,
    scenario_gain_two.
  repeat split; apply log10_scenario_bounds.
Qed.

Lemma scenario_two_first_row :
  In {| row_fk := "guided"; row_dim := 5; row_qmc := true; row_t := 0%nat;
        row_log10_gain := spec_log10_gain scenario_two 5 0 "guided" true |}
     (results_mse (snd (aggregate scenario_two [5%Z] 1%nat init_globals))).
Proof.
  rewrite (proj1 (proj2 (aggregate_complete 1 scenario_two [5%Z] init_globals eq_refl))).
  left. reflexivity.
Qed.

Lemma log10_gain_formula_witness :
  exists l0 l,
    est scenario_two 5 0 "guided" false = Ok l0 /\
    est scenario_two 5 0 "guided" true = Ok l /\
    In ("guided", true) non_reference /\
    let bm := np_mean l0 in
    let bv := np_var l0 in
    let mse := np_mean (map (fun x => np_square (np_sub x bm)) l) in
    spec_log10_gain scenario_two 5 0 "guided" true =
      np_add (np_neg (np_log10 mse)) (np_log10 bv) /\
    (l0 = [Fin 1; Fin 1; Fin 1; Fin 3] -> l = [Fin 2; Fin 2; Fin 2; Fin 2] ->
     bm = Fin 1.5 /\ bv = Fin 0.75 /\ mse = Fin 0.25 /\
     spec_log10_gain scenario_two 5 0 "guided" true = Fin (log10 (0.75 / 0.25)) /\
     0.4771 < log10 (0.75 / 0.25) < 0.4772).
Proof.
  exact (log10_gain_formula scenario_two [5%Z] 1%nat init_globals _
           scenario_two_first_row).
Defined.

Lemma scenario_two_gain :
  spec_log10_gain scenario_two 5 0 "guided" true = Fin (log10 (0.75 / 0.25)).
Proof.
  unfold spec_log10_gain, spec_mse, spec_base_mse, spec_base_mean.
  change (values scenario_two 5 0 "guided" false)
    with [Fin 1; Fin 1; Fin 1; Fin 3].
  change (values scenario_two 5 0 "guided" true)
    with [Fin 2; Fin 2; Fin 2; Fin 2].
  rewrite scenario_base_mean, scenario_base_mse, scenario_mse_two.
  apply scenario_gain_two.
Qed.

(** The error of a cell is not the variance of its own estimates: the
    estimates 2, 2, 2, 2 have variance 0 and error 0.25 against the
    reference mean 1.5. *)
Example mse_is_not_own_variance :
  spec_mse scenario_two 5 0 "guided" true = Fin 0.25 /\
  np_var (values scenario_two 5 0 "guided" true) = Fin 0.
Proof.
  split.
  - unfold spec_mse, spec_base_mean.
    change (values scenario_two 5 0 "guided" false)
      with [Fin 1; Fin 1; Fin 1; Fin 3].
    change (values scenario_two 5 0 "guided" true)
      with [Fin 2; Fin 2; Fin 2; Fin 2].
    rewrite scenario_base_mean. apply scenario_mse_two.
  - change (values scenario_two 5 0 "guided" true)
      with [Fin 2; Fin 2; Fin 2; Fin 2].
    np_eval. f_equal. lra.
Qed.

(** C2, the scenario as the claim words it.  With reference estimates
    1, 1, 1, 3 and guided quasi-random estimates 2, 2, 2, 2 at
    [(d, t) = (5, 0)], the variance of the reference estimates is 0.75 and not
    0.5625, and the row emitted for the cell carries [log10 (0.75 / 0.25)],
    above 0.4771, and not [log10 (0.5625 / 0.25)], which is below 0.3523. *)
Lemma log10_gain_scenario_counterexample :
  values scenario_two 5 0 "guided" false = [Fin 1; Fin 1; Fin 1; Fin 3] /\
  values scenario_two 5 0 "guided" true = [Fin 2; Fin 2; Fin 2; Fin 2] /\
  np_var (values scenario_two 5 0 "guided" false) = Fin 0.75 /\
  np_var (values scenario_two 5 0 "guided" false) <> Fin 0.5625 /\
  exists r,
    In r (results_mse (snd (aggregate scenario_two [5%Z] 1%nat init_globals))) /\
    key r = (5%Z, 0%nat, "guided"%string, true) /\
    row_log10_gain r = Fin (log10 (0.75 / 0.25)) /\
    0.4771 < log10 (0.75 / 0.25) /\
    row_log10_gain r <> Fin (log10 (0.5625 / 0.25)).
Proof.
  split; [reflexivity|]. split; [reflexivity|].
  change (values scenario_two 5 0 "guided" false)
    with [Fin 1; Fin 1; Fin 1; Fin 3].
  rewrite scenario_base_mse.
  split; [reflexivity|].
  split; [intros H; injection H; lra|].
  eexists. split; [apply scenario_two_first_row|].
  split; [reflexivity|]. cbn [row_log10_gain].
  rewrite scenario_two_gain.
  split; [reflexivity|]. split; [apply log10_scenario_bounds|].
  intros H. injection H as H.
  assert (H1 := proj1 log10_scenario_bounds).
  assert (H2 := log10_claimed_upper). lra.
Qed.

Close Scope R_scope.

(** ** Lines 61-80 as a whole *)

Lemma format_results_run (results : list record) (ds : list Z) (nT : nat)
    (s : globals) :
  format_results results ds nT s =
  match aggregate results ds nT s with
  | (Ok _, s') => (build_table (results_mse s'), s')
  | (Raise x, s') => (Raise x, s')
  end.
Proof.
  unfold format_results, bind, get_results, lift.
  destruct (aggregate results ds nT s) as [[u|x] s']; reflexivity.
Qed.

Lemma aggregate_state_independent (results : list record) (ds : list Z)
    (nT : nat) (s1 s2 : globals) :
  fst (aggregate results ds nT s1) = fst (aggregate results ds nT s2) /\
  results_mse (snd (aggregate results ds nT s1)) =
  results_mse (snd (aggregate results ds nT s2)).
Proof.
  rewrite !aggregate_run. unfold apply_effect; simpl. split; reflexivity.
Qed.

Lemma format_results_state_independent (results : list record) (ds : list Z)
    (nT : nat) (s1 s2 : globals) :
  fst (format_results results ds nT s1) = fst (format_results results ds nT s2).
Proof.
  rewrite !format_results_run.
  destruct (aggregate_state_independent results ds nT s1 s2) as [Ho Hr].
  destruct (aggregate results ds nT s1) as [o1 t1].
  destruct (aggregate results ds nT s2) as [o2 t2].
  simpl in Ho, Hr. subst o2.
  destruct o1; simpl; [rewrite Hr|]; reflexivity.
Qed.

(** C9.  Lines 61-80 are a function of the collection of results: whatever
    the state they start from, they end with the same exception or the same
    table (same rows, values, labels and order); in particular running them
    again from the state left by a first run gives the first run's table. *)
Theorem format_results_deterministic (results : list record) (ds : list Z)
    (nT : nat) (s1 s2 : globals) :
  fst (format_results results ds nT s1) = fst (format_results results ds nT s2) /\
  fst (format_results results ds nT (snd (format_results results ds nT s1))) =
  fst (format_results results ds nT s1).
Proof.
  split; apply format_results_state_independent.
Qed.

(** C6.  Over a collection that covers the horizon and a sweep without
    repeated dimension, the run ends normally and [results_mse] holds
    [|ds| * nT * 3] rows whose keys are exactly the grid (dimension, time,
    category other than the reference), each once and none missing; the
    reference category (guided, pseudo-random) is the key of no row; the
    data frame, when there is a row at all, is those rows with their labels;
    for the script's own [dims] and [T] the count is 600. *)
Theorem result_table_is_the_grid (results : list record) (ds : list Z)
    (nT : nat) (s0 : globals) :
  covers nT results = true -> NoDup ds ->
  let rows := results_mse (snd (aggregate results ds nT s0)) in
  fst (aggregate results ds nT s0) = Ok tt /\
  List.length rows = List.length ds * nT * 3 /\
  map key rows = grid_keys ds nT /\
  NoDup (map key rows) /\
  (forall d t c, In d ds -> t < nT -> In c non_reference ->
     In (d, t, fst c, snd c) (map key rows)) /\
  (forall r, In r rows -> (row_fk r, row_qmc r) <> ("guided", false)) /\
  (rows <> [] -> fst (format_results results ds nT s0) = Ok (map label_row rows)) /\
  (ds = dims -> nT = T -> List.length rows = 600).
Proof.
  intros Hcov Hnd rows.
  destruct (aggregate_complete nT results ds s0 Hcov) as [Ho [Hrows _]].
  assert (Hlen : List.length rows = List.length ds * nT * 3).
  { unfold rows. rewrite Hrows. unfold spec_rows. apply length_grid.
    intros d t. reflexivity. }
  assert (Hkeys : map key rows = grid_keys ds nT).
  { unfold rows. rewrite Hrows. apply map_key_spec_rows. }
  split; [exact Ho|]. split; [exact Hlen|]. split; [exact Hkeys|].
  split; [rewrite Hkeys; apply NoDup_grid_keys; exact Hnd|].
  split; [|split; [|split]].
  - intros d t c Hd Ht Hc. rewrite Hkeys. unfold grid_keys. apply in_grid.
    exists d, t. repeat split; auto.
    apply (in_map (fun c => (d, t, fst c, snd c))). exact Hc.
  - intros r Hr. unfold rows in Hr. rewrite Hrows in Hr.
    unfold spec_rows in Hr. apply in_grid in Hr.
    destruct Hr as [d [t [_ [_ Hr]]]].
    apply in_map_iff in Hr. destruct Hr as [c [<- Hc]].
    unfold non_reference in Hc. simpl in Hc.
    destruct Hc as [<-|[<-|[<-|[]]]]; simpl; discriminate.
  - intros Hne. rewrite format_results_run.
    fold rows. destruct (aggregate results ds nT s0) as [o s'] eqn:E.
    simpl in Ho. subst o. simpl in rows. subst rows.
    simpl. destruct (results_mse s'); [contradiction|reflexivity].
  - intros -> ->. rewrite Hlen. reflexivity.
Qed.

Lemma result_table_is_the_grid_witness :
  let rows := results_mse (snd (aggregate scenario_full dims T init_globals)) in
  fst (aggregate scenario_full dims T init_globals) = Ok tt /\
  List.length rows = List.length dims * T * 3 /\
  map key rows = grid_keys dims T /\
  NoDup (map key rows) /\
  (forall d t c, In d dims -> t < T -> In c non_reference ->
     In (d, t, fst c, snd c) (map key rows)) /\
  (forall r, In r rows -> (row_fk r, row_qmc r) <> ("guided", false)) /\
  (rows <> [] ->
   fst (format_results scenario_full dims T init_globals) = Ok (map label_row rows)) /\
  (dims = dims -> T = T -> List.length rows = 600).
Proof.
  apply (result_table_is_the_grid scenario_full dims T init_globals).
  - reflexivity.
  - repeat constructor; simpl; intuition discriminate.
Defined.

Open Scope R_scope.

Lemma values_no_match (results : list record) (d : Z) (t : nat) (k : string)
    (q : bool) :
  filter (selected d k q) results = [] -> values results d t k q = [].
Proof. intros H. unfold values, est. rewrite H. reflexivity. Qed.

Lemma np_add_nan_r (a : npfloat) : np_add a NaN = NaN.
Proof. destruct a; reflexivity. Qed.

Lemma scenario_zero_gain :
  spec_mse scenario_zero 5 0 "guided" true = Fin 0 /\
  spec_base_mse scenario_zero 5 0 = Fin 0.75 /\
  spec_log10_gain scenario_zero 5 0 "guided" true = PInf.
Proof.
  unfold spec_log10_gain, spec_mse, spec_base_mse, spec_base_mean.
  change (values scenario_zero 5 0 "guided" false)
    with [Fin 1; Fin 1; Fin 1; Fin 3].
  change (values scenario_zero 5 0 "guided" true)
    with [Fin 1.5; Fin 1.5; Fin 1.5; Fin 1.5].
  rewrite scenario_base_mean, scenario_base_mse, scenario_mse_zero.
  repeat split. apply scenario_gain_zero.
Qed.

(** C3, as the claim words it.  Reference estimates 1, 1, 1, 3 and guided
    quasi-random estimates all equal to the reference mean 1.5: the error of
    the cell is exactly zero, yet the run raises nothing, and the row of the
    cell is emitted with an infinite gain. *)
Lemma degenerate_cell_counterexample :
  spec_mse scenario_zero 5 0 "guided" true = Fin 0 /\
  fst (aggregate scenario_zero [5%Z] 1%nat init_globals) = Ok tt /\
  In {| row_fk := "guided"; row_dim := 5; row_qmc := true; row_t := 0%nat;
        row_log10_gain := PInf |}
     (results_mse (snd (aggregate scenario_zero [5%Z] 1%nat init_globals))).
Proof.
  destruct (aggregate_complete 1 scenario_zero [5%Z] init_globals eq_refl)
    as [Ho [Hrows _]].
  destruct scenario_zero_gain as [Hmse [_ Hgain]].
  split; [exact Hmse|]. split; [exact Ho|].
  rewrite Hrows. left. unfold spec_row. cbn [fst snd].
  rewrite Hgain. reflexivity.
Qed.

(** C3, amended.  Over a collection that covers the horizon, a zero
    reference variance or a zero error of a cell raises nothing: the run
    ends normally and the row of the cell is emitted with a gain that is not
    finite, namely plus infinity when the error is zero and the reference
    variance positive, minus infinity when the reference variance is zero
    and the error positive, not-a-number when both are zero. *)
Theorem degenerate_cell_emitted (results : list record) (ds : list Z)
    (nT : nat) (s0 : globals) (d : Z) (t : nat) (c : string * bool) :
  covers nT results = true -> In d ds -> (t < nT)%nat -> In c non_reference ->
  spec_base_mse results d t = Fin 0 \/
  spec_mse results d t (fst c) (snd c) = Fin 0 ->
  fst (aggregate results ds nT s0) = Ok tt /\
  exists g,
    In {| row_fk := fst c; row_dim := d; row_qmc := snd c; row_t := t;
          row_log10_gain := g |}
       (results_mse (snd (aggregate results ds nT s0))) /\
    is_finite g = false /\
    (spec_mse results d t (fst c) (snd c) = Fin 0 ->
     (exists v, spec_base_mse results d t = Fin v /\ 0 < v) -> g = PInf) /\
    (spec_base_mse results d t = Fin 0 ->
     (exists m, spec_mse results d t (fst c) (snd c) = Fin m /\ 0 < m) ->
     g = NInf) /\
    (spec_mse results d t (fst c) (snd c) = Fin 0 ->
     spec_base_mse results d t = Fin 0 -> g = NaN).
Proof.
  intros Hcov Hd Ht Hc Hdeg.
  destruct (aggregate_complete nT results ds s0 Hcov) as [Ho [Hrows _]].
  split; [exact Ho|].
  exists (spec_log10_gain results d t (fst c) (snd c)).
  split; [rewrite Hrows; apply (spec_row_in_rows results ds nT d t c); assumption|].
  unfold spec_log10_gain.
  split; [apply gain_not_finite; exact Hdeg|].
  split; [|split].
  - intros -> [v [-> Hv]].
    rewrite (np_log10_zero 0 eq_refl), (np_log10_pos v Hv). reflexivity.
  - intros -> [m [-> Hm]].
    rewrite (np_log10_zero 0 eq_refl), (np_log10_pos m Hm). reflexivity.
  - intros -> ->. rewrite (np_log10_zero 0 eq_refl). reflexivity.
Qed.

Lemma degenerate_cell_emitted_witness :
  fst (aggregate scenario_zero [5%Z] 1%nat init_globals) = Ok tt /\
  exists g,
    In {| row_fk := "guided"; row_dim := 5; row_qmc := true; row_t := 0%nat;
          row_log10_gain := g |}
       (results_mse (snd (aggregate scenario_zero [5%Z] 1%nat init_globals))) /\
    is_finite g = false /\
    (spec_mse scenario_zero 5 0 "guided" true = Fin 0 ->
     (exists v, spec_base_mse scenario_zero 5 0 = Fin v /\ 0 < v) -> g = PInf) /\
    (spec_base_mse scenario_zero 5 0 = Fin 0 ->
     (exists m, spec_mse scenario_zero 5 0 "guided" true = Fin m /\ 0 < m) ->
     g = NInf) /\
    (spec_mse scenario_zero 5 0 "guided" true = Fin 0 ->
     spec_base_mse scenario_zero 5 0 = Fin 0 -> g = NaN).
Proof.
  exact (degenerate_cell_emitted scenario_zero [5%Z] 1%nat init_globals
           5%Z 0%nat ("guided", true)
           eq_refl (or_introl eq_refl) (le_n 1) (or_introl eq_refl)
           (or_intror (proj1 scenario_zero_gain))).
Defined.

Close Scope R_scope.

(** C4, as the claim words it.  The collection holds no run of the
    bootstrap filter: the estimates gathered for (boot, pseudo-random) at
    [(5, 0)] are empty, yet the run raises nothing and emits the row of the
    cell, with not-a-number as its gain, among the three rows of [(5, 0)]. *)
Lemma missing_replications_counterexample :
  filter (selected 5 "boot" false) scenario_missing = [] /\
  fst (aggregate scenario_missing [5%Z] 1 init_globals) = Ok tt /\
  In {| row_fk := "boot"; row_dim := 5; row_qmc := false; row_t := 0;
        row_log10_gain := NaN |}
     (results_mse (snd (aggregate scenario_missing [5%Z] 1 init_globals))) /\
  List.length (results_mse (snd (aggregate scenario_missing [5%Z] 1 init_globals))) = 3.
Proof.
  destruct (aggregate_complete 1 scenario_missing [5%Z] init_globals eq_refl)
    as [Ho [Hrows _]].
  split; [reflexivity|]. split; [exact Ho|].
  rewrite Hrows. split; [|reflexivity].
  right. left. reflexivity.
Qed.

(** C4, amended.  Over a collection that covers the horizon, a cell for
    which the collection holds no matching run, or whose reference category
    has none, raises nothing: the mean of the empty set is not-a-number, the
    run ends normally, and the row of the cell is emitted with not-a-number
    as its gain; no row is dropped. *)
Theorem missing_replications_give_nan (results : list record) (ds : list Z)
    (nT : nat) (s0 : globals) (d : Z) (t : nat) (c : string * bool) :
  covers nT results = true -> In d ds -> t < nT -> In c non_reference ->
  filter (selected d (fst c) (snd c)) results = [] \/
  filter (selected d "guided" false) results = [] ->
  fst (aggregate results ds nT s0) = Ok tt /\
  In {| row_fk := fst c; row_dim := d; row_qmc := snd c; row_t := t;
        row_log10_gain := NaN |}
     (results_mse (snd (aggregate results ds nT s0))) /\
  List.length (results_mse (snd (aggregate results ds nT s0))) =
    List.length ds * nT * 3.
Proof.
  intros Hcov Hd Ht Hc Hempty.
  destruct (aggregate_complete nT results ds s0 Hcov) as [Ho [Hrows _]].
  split; [exact Ho|]. rewrite Hrows. split.
  - assert (Hg : spec_log10_gain results d t (fst c) (snd c) = NaN).
    { unfold spec_log10_gain, spec_mse, spec_base_mse, spec_base_mean.
      destruct Hempty as [H|H];
        rewrite (values_no_match results d t _ _ H).
      - reflexivity.
      - cbn [np_var np_mean map np_log10]. apply np_add_nan_r. }
    rewrite <- Hg. apply (spec_row_in_rows results ds nT d t c); assumption.
  - unfold spec_rows. apply length_grid. intros d' t'. reflexivity.
Qed.

Lemma missing_replications_give_nan_witness :
  fst (aggregate scenario_missing [5%Z] 1 init_globals) = Ok tt /\
  In {| row_fk := "boot"; row_dim := 5; row_qmc := true; row_t := 0;
        row_log10_gain := NaN |}
     (results_mse (snd (aggregate scenario_missing [5%Z] 1 init_globals))) /\
  List.length (results_mse (snd (aggregate scenario_missing [5%Z] 1 init_globals))) =
    List.length [5%Z] * 1 * 3.
Proof.
  exact (missing_replications_give_nan scenario_missing [5%Z] 1 init_globals
           5%Z 0 ("boot", true)
           eq_refl (or_introl eq_refl) (le_n 1)
           (or_intror (or_intror (or_introl eq_refl)))
           (or_introl eq_refl)).
Defined.

Open Scope R_scope.

Lemma spec_mse_perm (results : list record) (d : Z) (t : nat) (k : string)
    (q : bool) :
  Permutation (values results d t k q) (values results d t "guided" false) ->
  spec_mse results d t k q = spec_base_mse results d t.
Proof.
  intros H. unfold spec_mse, spec_base_mse, np_var, spec_base_mean.
  apply np_mean_perm. apply Permutation_map. exact H.
Qed.

Lemma scenario_equal_base_mse : spec_base_mse scenario_equal 5 0 = Fin 1.
Proof.
  unfold spec_base_mse.
  change (values scenario_equal 5 0 "guided" false) with [Fin 1; Fin 3].
  np_eval. f_equal. lra.
Qed.

Lemma scenario_constant_gain :
  spec_base_mse scenario_constant 5 0 = Fin 0 /\
  spec_mse scenario_constant 5 0 "guided" true = Fin 0 /\
  spec_log10_gain scenario_constant 5 0 "guided" true = NaN.
Proof.
  assert (Hv : spec_base_mse scenario_constant 5 0 = Fin 0).
  { unfold spec_base_mse.
    change (values scenario_constant 5 0 "guided" false) with [Fin 1; Fin 1].
    np_eval. f_equal. lra. }
  assert (Hm : spec_mse scenario_constant 5 0 "guided" true = Fin 0).
  { rewrite <- Hv. apply spec_mse_perm. apply Permutation_refl. }
  split; [exact Hv|]. split; [exact Hm|].
  unfold spec_log10_gain. rewrite Hm, Hv.
  rewrite (np_log10_zero 0 eq_refl). reflexivity.
Qed.

(** C8, as the claim words it.  Reference estimates 1, 1 and guided
    quasi-random estimates 1, 1: the two sets are the same multiset and the
    error equals the reference variance, both being zero; the gain emitted
    for the cell is then not-a-number (plus infinity minus infinity), not
    0. *)
Lemma equal_estimates_counterexample :
  Permutation (values scenario_constant 5 0 "guided" true)
              (values scenario_constant 5 0 "guided" false) /\
  spec_mse scenario_constant 5 0 "guided" true =
    spec_base_mse scenario_constant 5 0 /\
  In {| row_fk := "guided"; row_dim := 5; row_qmc := true; row_t := 0%nat;
        row_log10_gain := NaN |}
     (results_mse (snd (aggregate scenario_constant [5%Z] 1%nat init_globals))) /\
  ~ In {| row_fk := "guided"; row_dim := 5; row_qmc := true; row_t := 0%nat;
          row_log10_gain := Fin 0 |}
       (results_mse (snd (aggregate scenario_constant [5%Z] 1%nat init_globals))).
Proof.
  destruct (aggregate_complete 1 scenario_constant [5%Z] init_globals eq_refl)
    as [_ [Hrows _]].
  destruct scenario_constant_gain as [Hv [Hm Hg]].
  split; [apply Permutation_refl|].
  split; [rewrite Hm, Hv; reflexivity|].
  rewrite Hrows.
  change (spec_rows scenario_constant [5%Z] 1)
    with [spec_row scenario_constant 5 0 ("guided", true);
          spec_row scenario_constant 5 0 ("boot", false);
          spec_row scenario_constant 5 0 ("boot", true)].
  unfold spec_row. cbn [fst snd]. rewrite Hg. split.
  - left. reflexivity.
  - intros [H|[H|[H|[]]]]; discriminate.
Qed.

(** C8, amended.  Over a collection that covers the horizon, when the
    estimates of a category at [(d, t)] are, as a multiset, those of the
    reference category at [(d, t)], the error of the cell equals the
    reference variance, whatever that value: the cell is computed with one
    value [m], the variance of the reference estimates, both as the
    [base_mse] it reads and as its [mse].  When that common value is finite
    and positive, the row of the cell is emitted with gain 0; when it is
    zero, with not-a-number. *)
Theorem equal_estimates_zero_gain (results : list record) (ds : list Z)
    (nT : nat) (s0 : globals) (d : Z) (t : nat) (c : string * bool) :
  covers nT results = true -> In d ds -> (t < nT)%nat -> In c non_reference ->
  Permutation (values results d t (fst c) (snd c))
              (values results d t "guided" false) ->
  exists l0 pre post bm m g,
    est results d t "guided" false = Ok l0 /\
    m = np_var l0 /\
    spec_mse results d t (fst c) (snd c) = spec_base_mse results d t /\
    trace (snd (aggregate results ds nT s0)) =
      trace s0 ++ pre ++ Cell d t (fst c) (snd c) bm m m g :: post /\
    In {| row_fk := fst c; row_dim := d; row_qmc := snd c; row_t := t;
          row_log10_gain := g |}
       (results_mse (snd (aggregate results ds nT s0))) /\
    (forall v, m = Fin v -> 0 < v -> g = Fin 0) /\
    (m = Fin 0 -> g = NaN).
Proof.
  intros Hcov Hd Ht Hc Hperm.
  destruct (aggregate_complete nT results ds s0 Hcov) as [_ [Hrows Htr]].
  assert (Hm := spec_mse_perm results d t (fst c) (snd c) Hperm).
  destruct (spec_cell_in_trace results ds nT d t c Hd Ht Hc) as [pre [post Hsplit]].
  exists (values results d t "guided" false), pre, post,
         (spec_base_mean results d t), (spec_base_mse results d t),
         (spec_log10_gain results d t (fst c) (snd c)).
  split; [apply (est_covers nT); assumption|].
  split; [reflexivity|]. split; [exact Hm|].
  split; [rewrite Htr, Hsplit; unfold spec_cell; rewrite Hm; reflexivity|].
  split; [rewrite Hrows; apply (spec_row_in_rows results ds nT d t c); assumption|].
  unfold spec_log10_gain. rewrite Hm. split.
  - intros v -> Hpos. apply gain_equal_errors. exact Hpos.
  - intros ->. rewrite (np_log10_zero 0 eq_refl). reflexivity.
Qed.

Lemma equal_estimates_zero_gain_witness :
  exists l0 pre post bm m g,
    est scenario_equal 5 0 "guided" false = Ok l0 /\
    m = np_var l0 /\
    spec_mse scenario_equal 5 0 "guided" true = spec_base_mse scenario_equal 5 0 /\
    trace (snd (aggregate scenario_equal [5%Z] 1%nat init_globals)) =
      trace init_globals ++ pre ++ Cell 5 0 "guided" true bm m m g :: post /\
    In {| row_fk := "guided"; row_dim := 5; row_qmc := true; row_t := 0%nat;
          row_log10_gain := g |}
       (results_mse (snd (aggregate scenario_equal [5%Z] 1%nat init_globals))) /\
    (forall v, m = Fin v -> 0 < v -> g = Fin 0) /\
    (m = Fin 0 -> g = NaN).
Proof.
  exact (equal_estimates_zero_gain scenario_equal [5%Z] 1%nat init_globals
           5%Z 0%nat ("guided", true)
           eq_refl (or_introl eq_refl) (le_n 1) (or_introl eq_refl)
           (perm_swap (Fin 1) (Fin 3) [])).
Defined.

(** At the scenario of the witness the common value is 1, so the row is
    emitted with gain 0. *)
Example equal_estimates_scenario :
  spec_base_mse scenario_equal 5 0 = Fin 1 /\
  In {| row_fk := "guided"; row_dim := 5; row_qmc := true; row_t := 0%nat;
        row_log10_gain := Fin 0 |}
     (results_mse (snd (aggregate scenario_equal [5%Z] 1%nat init_globals))).
Proof.
  split; [exact scenario_equal_base_mse|].
  destruct (aggregate_complete 1 scenario_equal [5%Z] init_globals eq_refl)
    as [_ [Hrows _]].
  rewrite Hrows. left. unfold spec_row. cbn [fst snd]. f_equal.
  unfold spec_log10_gain.
  rewrite (spec_mse_perm scenario_equal 5 0 "guided" true
             (perm_swap (Fin 1) (Fin 3) [])).
  rewrite scenario_equal_base_mse. apply gain_equal_errors. exact Rlt_0_1.
Qed.

Close Scope R_scope.

(** ** The registry *)

Lemma to_int_not_nil (d : Z) :
  Z.to_int d <> Decimal.Pos Decimal.Nil /\ Z.to_int d <> Decimal.Neg Decimal.Nil.
Proof.
  destruct d as [|p|p]; simpl; split; try discriminate;
    intros H; injection H as H; exact (DecimalPos.Unsigned.to_uint_nonnil p H).
Qed.

(** ['%i' % d] determines [d]. *)
Lemma fmt_i_inj (d d' : Z) : fmt_i d = fmt_i d' -> d = d'.
Proof.
  unfold fmt_i. intros H.
  apply (f_equal NilZero.int_of_string) in H.
  destruct (to_int_not_nil d) as [H1 H2].
  destruct (to_int_not_nil d') as [H1' H2'].
  rewrite !NilZero.isi in H by assumption.
  injection H as H. apply DecimalZ.to_int_inj. exact H.
Qed.

Lemma names_of_disjoint (d d' : Z) (k : string) :
  In k (names_of d) -> In k (names_of d') -> d = d'.
Proof.
  unfold names_of. simpl.
  intros [<-|[<-|[]]] [H|[H|[]]]; try discriminate;
    injection H as H; apply fmt_i_inj; congruence.
Qed.

Section RegistryFacts.

Variables SSM Data : Type.
Variable new_ssm : Z -> SSM.
Variable simulate : nat -> SSM -> Data.

Lemma od_set_fresh (k : string) (v : problem SSM Data) (od : odict SSM Data) :
  ~ In k (od_keys od) -> od_set k v od = od ++ [(k, v)].
Proof.
  induction od as [|[k' v'] od IH]; simpl; intros Hk.
  - reflexivity.
  - destruct (String.eqb k' k) eqn:E.
    + apply String.eqb_eq in E. exfalso. apply Hk. left. exact E.
    + rewrite IH; [reflexivity|]. intros H. apply Hk. right. exact H.
Qed.

Lemma models_step_fresh (od : odict SSM Data) (i : nat) (d : Z) :
  (forall k, In k (names_of d) -> ~ In k (od_keys od)) ->
  od_keys (models_step new_ssm simulate od i d) = od_keys od ++ names_of d.
Proof.
  intros Hfresh. unfold models_step.
  rewrite (od_set_fresh ("boot_" ++ fmt_i d)).
  - rewrite od_set_fresh.
    + unfold od_keys. rewrite !map_app, <- app_assoc. reflexivity.
    + unfold od_keys. rewrite map_app, in_app_iff. simpl.
      intros [H|[H|[]]]; [|discriminate].
      apply (Hfresh ("guided_" ++ fmt_i d)%string); [|exact H].
      right; left; reflexivity.
  - apply Hfresh. left; reflexivity.
Qed.

Lemma models_loop_keys (ds : list Z) :
  NoDup ds ->
  forall (od : odict SSM Data) (i : nat),
    (forall d k, In d ds -> In k (names_of d) -> ~ In k (od_keys od)) ->
    od_keys (models_loop new_ssm simulate od i ds) =
      od_keys od ++ flat_map names_of ds.
Proof.
  induction 1 as [|d ds Hd Hds IH]; intros od i Hfresh; simpl.
  - rewrite app_nil_r. reflexivity.
  - rewrite IH.
    + rewrite models_step_fresh, <- app_assoc; [reflexivity|].
      intros k Hk. apply (Hfresh d); [left; reflexivity | exact Hk].
    + intros d' k Hd' Hk.
      rewrite models_step_fresh
        by (intros k' Hk'; apply (Hfresh d); [left; reflexivity | exact Hk']).
      rewrite in_app_iff. intros [H|H].
      * apply (Hfresh d' k); [right; exact Hd' | exact Hk | exact H].
      * apply Hd. rewrite (names_of_disjoint d d' k H Hk). exact Hd'.
Qed.

Lemma NoDup_names (ds : list Z) : NoDup ds -> NoDup (flat_map names_of ds).
Proof.
  intros Hds. apply NoDup_flat_map; [exact Hds| |].
  - intros d _. unfold names_of.
    repeat constructor; simpl; intuition discriminate.
  - intros d d' k _ _. apply names_of_disjoint.
Qed.

(** C7.  Built from a sweep without repeated dimension, the registry
    holds exactly two entries per dimension, its names are pairwise
    distinct, and they come in the order of insertion: for each dimension
    in turn, the bootstrap problem then the guided one. *)
Theorem models_registry (ds : list Z) :
  NoDup ds ->
  List.length (models new_ssm simulate ds) = 2 * List.length ds /\
  NoDup (od_keys (models new_ssm simulate ds)) /\
  od_keys (models new_ssm simulate ds) =
    flat_map (fun d => [("boot_" ++ fmt_i d)%string;
                        ("guided_" ++ fmt_i d)%string]) ds.
Proof.
  intros Hds.
  assert (Hkeys : od_keys (models new_ssm simulate ds) = flat_map names_of ds).
  { unfold models. rewrite (models_loop_keys ds Hds); [reflexivity|].
    intros d k _ _ []. }
  split; [|split].
  - rewrite <- (length_map fst). fold (od_keys (models new_ssm simulate ds)).
    rewrite Hkeys.
    rewrite (flat_map_constant_length (c := 2)); [lia|].
    intros d _. reflexivity.
  - rewrite Hkeys. apply NoDup_names. exact Hds.
  - exact Hkeys.
Qed.

End RegistryFacts.

Lemma models_registry_witness :
  List.length (models (fun d => d) (fun i m => (i, m)) dims) = 2 * List.length dims /\
  NoDup (od_keys (models (fun d => d) (fun i m => (i, m)) dims)) /\
  od_keys (models (fun d => d) (fun i m => (i, m)) dims) =
    flat_map (fun d => [("boot_" ++ fmt_i d)%string;
                        ("guided_" ++ fmt_i d)%string]) dims.
Proof.
  apply (models_registry Z (nat * Z)%type (fun d => d) (fun i m => (i, m)) dims).
  repeat constructor; simpl; intuition discriminate.
Defined.

(** * Further properties of the script *)

(** ** Which runs a cell gathers *)

Lemma selected_true (d : Z) (k : string) (q : bool) (r : record) :
  selected d k q r = true <->
  r_qmc r = q /\ r_fk r = (k ++ "_" ++ fmt_i d)%string.
Proof.
  unfold selected. rewrite andb_true_iff, Bool.eqb_true_iff, String.eqb_eq.
  reflexivity.
Qed.

(** A run belongs to one cell at most: the name of its problem and its
    mode fix the dimension, the kind of filter and the mode of the only
    category of lines 66-69 that gathers it. *)
Theorem selection_exclusive (d d' : Z) (k k' : string) (q q' : bool) (r : record) :
  In k ["guided"; "boot"] -> In k' ["guided"; "boot"] ->
  selected d k q r = true -> selected d' k' q' r = true ->
  d = d' /\ k = k' /\ q = q'.
Proof.
  intros Hk Hk' H H'.
  apply selected_true in H. apply selected_true in H'.
  destruct H as [Hq Hn]. destruct H' as [Hq' Hn'].
  rewrite Hn in Hn'. simpl in Hk, Hk'.
  destruct Hk as [<-|[<-|[]]]; destruct Hk' as [<-|[<-|[]]];
    simpl in Hn'; try discriminate;
    injection Hn' as Hf; apply fmt_i_inj in Hf;
    repeat split; congruence.
Qed.

Lemma selection_exclusive_witness :
  5%Z = 5%Z /\ "guided" = "guided" /\ true = true.
Proof.
  exact (selection_exclusive 5 5 "guided" "guided" true true
           (run_of "guided" 5 true [])
           (or_introl eq_refl) (or_introl eq_refl) eq_refl eq_refl).
Defined.

(** ** When the loop raises *)

Lemma map_outcome_ok_iff {A B : Type} (f : A -> outcome B) (l : list A) :
  (exists bs, map_outcome f l = Ok bs) <->
  (forall a, In a l -> exists b, f a = Ok b).
Proof.
  split.
  - intros [bs Hbs] a Ha.
    destruct (f a) as [b|x] eqn:E; [exists b; reflexivity|].
    exfalso. revert bs Hbs. induction l as [|a' l IH]; intros bs Hbs.
    + destruct Ha.
    + simpl in Hbs. destruct Ha as [->|Ha].
      * rewrite E in Hbs. discriminate.
      * destruct (f a'); [|discriminate].
        destruct (map_outcome f l) as [bs'|]; [|discriminate].
        exact (IH Ha bs' eq_refl).
  - intros H. destruct (map_outcome_ok f l H) as [bs [Hbs _]].
    exists bs. exact Hbs.
Qed.

Lemma eff_concat_out_ok (es : list effect) :
  eff_out (eff_concat es) = Ok tt <-> Forall (fun e => eff_out e = Ok tt) es.
Proof.
  split.
  - induction es as [|e es IH]; simpl; intros H; [constructor|].
    unfold eff_seq in H. destruct (eff_out e) as [[]|x] eqn:E; simpl in H.
    + constructor; [exact E | apply IH; exact H].
    + rewrite E in H. discriminate.
  - intros H. apply (eff_concat_ok es H).
Qed.

Lemma cells_effect_out_ok (results : list record) (d : Z) (t : nat)
    (bm bv : npfloat) (cats : list (string * bool)) :
  eff_out (cells_effect results d t bm bv cats) = Ok tt <->
  (forall c, In c cats -> exists l, est results d t (fst c) (snd c) = Ok l).
Proof.
  induction cats as [|c cats IH]; simpl.
  - split; [intros _ c [] | reflexivity].
  - destruct (est results d t (fst c) (snd c)) as [l|x] eqn:E.
    + unfold eff_seq; simpl. rewrite IH. split.
      * intros H c' [<-|Hc']; [exists l; exact E | apply H; exact Hc'].
      * intros H c' Hc'. apply H. right; exact Hc'.
    + simpl. split; [discriminate|].
      intros H. destruct (H c (or_introl eq_refl)) as [l Hl].
      rewrite E in Hl. discriminate.
Qed.

Lemma block_effect_out_ok (results : list record) (d : Z) (t : nat) :
  eff_out (block_effect results d t) = Ok tt <->
  (forall c, In c categories -> exists l, est results d t (fst c) (snd c) = Ok l).
Proof.
  unfold block_effect, categories.
  destruct (est results d t "guided" false) as [l0|x] eqn:E.
  - unfold eff_seq; cbn [eff_out]. rewrite cells_effect_out_ok. split.
    + intros H c [<-|Hc]; [exists l0; exact E | apply H; exact Hc].
    + intros H c Hc. apply H. right; exact Hc.
  - simpl. split; [discriminate|].
    intros H. destruct (H ("guided", false) (or_introl eq_refl)) as [l Hl].
    simpl in Hl. rewrite E in Hl. discriminate.
Qed.

Lemma aggregate_effect_out_ok (results : list record) (ds : list Z) (nT : nat) :
  eff_out (aggregate_effect results ds nT) = Ok tt <->
  (forall d t c, In d ds -> t < nT -> In c categories ->
     exists l, est results d t (fst c) (snd c) = Ok l).
Proof.
  unfold aggregate_effect. rewrite eff_concat_out_ok, Forall_forall. split.
  - intros H d t c Hd Ht Hc.
    specialize (H _ (in_map _ ds d Hd)).
    rewrite eff_concat_out_ok, Forall_forall in H.
    assert (Hin : In t (range nT)) by (apply in_range; exact Ht).
    specialize (H _ (in_map (fun t => block_effect results d t) _ t Hin)).
    apply (proj1 (block_effect_out_ok results d t) H). exact Hc.
  - intros H e He. apply in_map_iff in He. destruct He as [d [<- Hd]].
    rewrite eff_concat_out_ok, Forall_forall. intros e He.
    apply in_map_iff in He. destruct He as [t [<- Ht]].
    apply block_effect_out_ok. intros c Hc.
    apply H; auto. apply in_range. exact Ht.
Qed.

(** The loop of lines 61-77 ends normally exactly when every run of a
    swept problem (either filter, any swept dimension, either mode) holds an
    estimate at every swept time; otherwise it raises the IndexError of
    line 65.  Runs of other problems are never looked at. *)
Theorem aggregate_ok_iff (results : list record) (ds : list Z) (nT : nat)
    (s0 : globals) :
  (fst (aggregate results ds nT s0) = Ok tt <->
   forall d t k q r,
     In d ds -> t < nT -> In k ["guided"; "boot"] ->
     In r results -> selected d k q r = true ->
     exists x, estimate t r = Ok x) /\
  (fst (aggregate results ds nT s0) <> Ok tt ->
   fst (aggregate results ds nT s0) = Raise IndexError).
Proof.
  split.
  - rewrite aggregate_run. unfold apply_effect. cbn [fst].
    rewrite aggregate_effect_out_ok. split.
    + intros H d t k q r Hd Ht Hk Hr Hsel.
      assert (Hc : In (k, q) categories).
      { simpl in Hk. unfold categories, non_reference.
        destruct Hk as [<-|[<-|[]]]; destruct q; simpl; auto. }
      specialize (H d t (k, q) Hd Ht Hc). cbn [fst snd] in H.
      unfold est in H. rewrite map_outcome_ok_iff in H.
      apply H. apply filter_In. split; assumption.
    + intros H d t c Hd Ht Hc. unfold est. apply map_outcome_ok_iff.
      intros r Hr. apply filter_In in Hr. destruct Hr as [Hr Hsel].
      apply (H d t (fst c) (snd c) r); auto.
      unfold categories, non_reference in Hc. simpl in Hc.
      destruct Hc as [<-|[<-|[<-|[<-|[]]]]]; simpl; auto.
  - intros Hne. destruct (aggregate_benign results ds nT s0) as [H|H];
      [contradiction | exact H].
Qed.

(** ** What an exception leaves behind *)

Lemma is_prefix_refl {A : Type} (a : list A) : is_prefix a a.
Proof. exists []. rewrite app_nil_r. reflexivity. Qed.

Lemma is_prefix_app_r {A : Type} (a b c : list A) :
  is_prefix a b -> is_prefix a (b ++ c).
Proof. intros [x ->]. exists (x ++ c). rewrite app_assoc. reflexivity. Qed.

Lemma is_prefix_app_l {A : Type} (a b c : list A) :
  is_prefix b c -> is_prefix (a ++ b) (a ++ c).
Proof. intros [x ->]. exists x. rewrite app_assoc. reflexivity. Qed.

Lemma is_prefix_map {A B : Type} (f : A -> B) (a b : list A) :
  is_prefix a b -> is_prefix (map f a) (map f b).
Proof. intros [x ->]. exists (map f x). apply map_app. Qed.

Lemma is_prefix_in {A : Type} (a b : list A) (x : A) :
  is_prefix a b -> In x a -> In x b.
Proof. intros [c ->] H. apply in_or_app. left. exact H. Qed.

Lemma eff_concat_prefix {A : Type} (f : A -> effect) (F : A -> list row)
    (xs : list A) :
  (forall x, In x xs ->
     is_prefix (eff_rows (f x)) (F x) /\
     (eff_out (f x) = Ok tt -> eff_rows (f x) = F x)) ->
  is_prefix (eff_rows (eff_concat (map f xs))) (flat_map F xs) /\
  (eff_out (eff_concat (map f xs)) = Ok tt ->
   eff_rows (eff_concat (map f xs)) = flat_map F xs).
Proof.
  induction xs as [|x xs IH]; intros H; simpl.
  - split; [apply is_prefix_refl | reflexivity].
  - destruct (H x (or_introl eq_refl)) as [Hp Hok].
    destruct IH as [IHp IHok]; [intros y Hy; apply H; right; exact Hy|].
    unfold eff_seq. destruct (eff_out (f x)) as [[]|e] eqn:E; simpl.
    + rewrite (Hok eq_refl). split.
      * apply is_prefix_app_l. exact IHp.
      * intros Ho. rewrite (IHok Ho). reflexivity.
    + split; [apply is_prefix_app_r; exact Hp|].
      rewrite E. discriminate.
Qed.

Lemma cells_effect_prefix (results : list record) (d : Z) (t : nat)
    (cats : list (string * bool)) :
  let e := cells_effect results d t (spec_base_mean results d t)
             (spec_base_mse results d t) cats in
  is_prefix (eff_rows e) (map (spec_row results d t) cats) /\
  (eff_out e = Ok tt -> eff_rows e = map (spec_row results d t) cats).
Proof.
  induction cats as [|c cats IH]; simpl.
  - split; [apply is_prefix_refl | reflexivity].
  - destruct (est results d t (fst c) (snd c)) as [l|x] eqn:E.
    + assert (Hrow :
        {| row_fk := fst c; row_dim := d; row_qmc := snd c; row_t := t;
           row_log10_gain :=
             np_add
               (np_neg (np_log10
                  (np_mean (map (fun x => np_square
                              (np_sub x (spec_base_mean results d t))) l))))
               (np_log10 (spec_base_mse results d t)) |}
        = spec_row results d t c).
      { unfold spec_row, spec_log10_gain, spec_mse, values.
        rewrite E. reflexivity. }
      unfold eff_seq; simpl. rewrite Hrow. destruct IH as [IHp IHok]. split.
      * apply (is_prefix_app_l [spec_row results d t c]). exact IHp.
      * intros Ho. rewrite (IHok Ho). reflexivity.
    + simpl. split; [exists (spec_row results d t c :: map (spec_row results d t) cats); reflexivity|].
      discriminate.
Qed.

Lemma block_effect_prefix (results : list record) (d : Z) (t : nat) :
  is_prefix (eff_rows (block_effect results d t))
            (map (spec_row results d t) non_reference) /\
  (eff_out (block_effect results d t) = Ok tt ->
   eff_rows (block_effect results d t) = map (spec_row results d t) non_reference).
Proof.
  unfold block_effect.
  destruct (est results d t "guided" false) as [l0|x] eqn:E.
  - assert (Hm : np_mean l0 = spec_base_mean results d t)
      by (unfold spec_base_mean, values; rewrite E; reflexivity).
    assert (Hv : np_var l0 = spec_base_mse results d t)
      by (unfold spec_base_mse, values; rewrite E; reflexivity).
    rewrite Hm, Hv. unfold eff_seq; cbn [eff_out eff_rows app].
    apply cells_effect_prefix.
  - simpl. split; [eexists; reflexivity | discriminate].
Qed.

Lemma aggregate_effect_prefix (results : list record) (ds : list Z) (nT : nat) :
  is_prefix (eff_rows (aggregate_effect results ds nT)) (spec_rows results ds nT).
Proof.
  unfold aggregate_effect, spec_rows, grid.
  apply (eff_concat_prefix
    (fun d => eff_concat (map (fun t => block_effect results d t) (range nT)))
    (fun d => flat_map (fun t => map (spec_row results d t) non_reference) (range nT))).
  intros d _.
  apply (eff_concat_prefix (fun t => block_effect results d t)
    (fun t => map (spec_row results d t) non_reference)).
  intros t _. apply block_effect_prefix.
Qed.

(** Whatever the collection, also when the loop stops on an IndexError,
    [results_mse] is an initial segment of the rows of the grid: each row
    already appended is the row of its cell, with the gain computed from the
    estimates of that cell, and the keys come in grid order. *)
Theorem rows_are_a_prefix_of_the_grid (results : list record) (ds : list Z)
    (nT : nat) (s0 : globals) :
  is_prefix (results_mse (snd (aggregate results ds nT s0)))
            (spec_rows results ds nT) /\
  is_prefix (map key (results_mse (snd (aggregate results ds nT s0))))
            (grid_keys ds nT).
Proof.
  assert (H : is_prefix (results_mse (snd (aggregate results ds nT s0)))
                        (spec_rows results ds nT)).
  { rewrite aggregate_run. unfold apply_effect. cbn [snd results_mse app].
    apply aggregate_effect_prefix. }
  split; [exact H|].
  rewrite <- (map_key_spec_rows results ds nT). apply is_prefix_map. exact H.
Qed.

(** Every row of any run is the row of a cell of the grid. *)
Lemma row_is_spec_row (results : list record) (ds : list Z) (nT : nat)
    (s0 : globals) (r : row) :
  In r (results_mse (snd (aggregate results ds nT s0))) ->
  In (row_dim r) ds /\ row_t r < nT /\
  In (row_fk r, row_qmc r) non_reference /\
  row_log10_gain r =
    spec_log10_gain results (row_dim r) (row_t r) (row_fk r) (row_qmc r).
Proof.
  intros Hr.
  assert (H : is_prefix (results_mse (snd (aggregate results ds nT s0)))
                        (spec_rows results ds nT)).
  { rewrite aggregate_run. unfold apply_effect. cbn [snd results_mse app].
    apply aggregate_effect_prefix. }
  apply (is_prefix_in _ _ r H) in Hr.
  unfold spec_rows in Hr. apply in_grid in Hr.
  destruct Hr as [d [t [Hd [Ht Hr]]]].
  apply in_map_iff in Hr. destruct Hr as [[k q] [<- Hc]].
  simpl. auto.
Qed.

(** ** The labels of the table *)

(** When lines 61-80 return a table, it has at least one row, one per
    element of [results_mse]; the label of every row is one of the three
    names of the plot's [hue_order] (line 92), so the plot keeps every row;
    and two rows with the same label have the same filter and the same
    mode. *)
Theorem labels_are_the_hues (results : list record) (ds : list Z) (nT : nat)
    (s0 : globals) (tbl : list table_row) :
  fst (format_results results ds nT s0) = Ok tbl ->
  tbl <> [] /\
  tbl = map label_row (results_mse (snd (format_results results ds nT s0))) /\
  (forall r, In r tbl -> In (col_fk_qmc r) hue_order) /\
  (forall r1 r2, In r1 tbl -> In r2 tbl ->
     col_fk_qmc r1 = col_fk_qmc r2 ->
     col_fk r1 = col_fk r2 /\ col_qmc r1 = col_qmc r2).
Proof.
  intros Htbl. rewrite format_results_run in Htbl |- *.
  assert (Hrows := row_is_spec_row results ds nT s0).
  destruct (aggregate results ds nT s0) as [[u|x] s'] eqn:E;
    cbn [fst snd] in *; [|discriminate].
  unfold build_table in Htbl.
  destruct (results_mse s') as [|r0 rows] eqn:Er; [discriminate|].
  injection Htbl as <-.
  assert (Hcat : forall r, In r (map label_row (r0 :: rows)) ->
            In (col_fk r, col_qmc r) non_reference /\
            col_fk_qmc r = (col_fk r ++ mode_suffix (col_qmc r))%string).
  { intros r Hr. apply in_map_iff in Hr. destruct Hr as [r' [<- Hr']].
    destruct (Hrows r' Hr') as [_ [_ [Hc _]]]. simpl. auto. }
  split; [discriminate|]. split; [reflexivity|]. split.
  - intros r Hr. destruct (Hcat r Hr) as [Hc ->].
    unfold non_reference in Hc. simpl in Hc.
    destruct Hc as [Hc|[Hc|[Hc|[]]]]; injection Hc as <- <-; simpl; auto.
  - intros r1 r2 H1 H2 Heq.
    destruct (Hcat r1 H1) as [Hc1 Hl1]. destruct (Hcat r2 H2) as [Hc2 Hl2].
    rewrite Hl1, Hl2 in Heq. revert Heq.
    unfold non_reference in Hc1, Hc2. simpl in Hc1, Hc2.
    destruct Hc1 as [Hc1|[Hc1|[Hc1|[]]]]; injection Hc1 as <- <-;
    destruct Hc2 as [Hc2|[Hc2|[Hc2|[]]]]; injection Hc2 as <- <-;
      simpl; intros Heq; try discriminate; split; reflexivity.
Qed.

Lemma scenario_two_table :
  fst (format_results scenario_two [5%Z] 1 init_globals) =
  Ok (map label_row (spec_rows scenario_two [5%Z] 1)).
Proof.
  rewrite format_results_run.
  destruct (aggregate_complete 1 scenario_two [5%Z] init_globals eq_refl)
    as [Ho [Hrows _]].
  destruct (aggregate scenario_two [5%Z] 1 init_globals) as [o s'].
  cbn [fst snd] in *. subst o. rewrite Hrows. reflexivity.
Qed.

Lemma labels_are_the_hues_witness :
  map label_row (spec_rows scenario_two [5%Z] 1) <> [] /\
  map label_row (spec_rows scenario_two [5%Z] 1) =
    map label_row
      (results_mse (snd (format_results scenario_two [5%Z] 1 init_globals))) /\
  (forall r, In r (map label_row (spec_rows scenario_two [5%Z] 1)) ->
     In (col_fk_qmc r) hue_order) /\
  (forall r1 r2,
     In r1 (map label_row (spec_rows scenario_two [5%Z] 1)) ->
     In r2 (map label_row (spec_rows scenario_two [5%Z] 1)) ->
     col_fk_qmc r1 = col_fk_qmc r2 ->
     col_fk r1 = col_fk r2 /\ col_qmc r1 = col_qmc r2).
Proof.
  exact (labels_are_the_hues scenario_two [5%Z] 1 init_globals _
           scenario_two_table).
Defined.

(** ** The order of the collection does not matter *)












(** ** What the gain measures *)

Open Scope R_scope.










(** ** Sums of finite estimates *)










Close Scope R_scope.

Open Scope R_scope.








Close Scope R_scope.

(** ** The content of the registry *)

Section RegistryContent.

Variables SSM Data : Type.
Variable new_ssm : Z -> SSM.
Variable simulate : nat -> SSM -> Data.

Lemma od_keys_app (a b : odict SSM Data) :
  od_keys (a ++ b) = od_keys a ++ od_keys b.
Proof. unfold od_keys. apply map_app. Qed.

Lemma models_step_entries (od : odict SSM Data) (i : nat) (d : Z) :
  (forall k, In k (names_of d) -> ~ In k (od_keys od)) ->
  models_step new_ssm simulate od i d = od ++ entries_of new_ssm simulate i d.
Proof.
  intros Hfresh. unfold models_step, entries_of.
  rewrite (od_set_fresh SSM Data ("boot_" ++ fmt_i d)).
  - rewrite od_set_fresh.
    + rewrite <- app_assoc. reflexivity.
    + rewrite od_keys_app, in_app_iff. simpl.
      intros [H|[H|[]]]; [|discriminate].
      apply (Hfresh ("guided_" ++ fmt_i d)%string); [|exact H].
      right; left; reflexivity.
  - apply Hfresh. left; reflexivity.
Qed.

Lemma models_loop_entries (ds : list Z) :
  NoDup ds ->
  forall (od : odict SSM Data) (i : nat),
    (forall d k, In d ds -> In k (names_of d) -> ~ In k (od_keys od)) ->
    models_loop new_ssm simulate od i ds =
      od ++ flat_map (fun p => entries_of new_ssm simulate (fst p) (snd p))
                     (combine (seq i (List.length ds)) ds).
Proof.
  induction 1 as [|d ds Hd Hds IH]; intros od i Hfresh; simpl.
  - rewrite app_nil_r. reflexivity.
  - assert (Hstep : models_step new_ssm simulate od i d =
                    od ++ entries_of new_ssm simulate i d).
    { apply models_step_entries. intros k Hk.
      apply (Hfresh d); [left; reflexivity | exact Hk]. }
    rewrite IH.
    + rewrite Hstep, <- app_assoc. reflexivity.
    + intros d' k Hd' Hk. rewrite Hstep, od_keys_app, in_app_iff.
      intros [H|H].
      * apply (Hfresh d' k); [right; exact Hd' | exact Hk | exact H].
      * apply Hd. rewrite (names_of_disjoint d d' k H Hk). exact Hd'.
Qed.

(** Lines 44-53 over a sweep without repeated dimension: the registry is,
    dimension after dimension, the bootstrap problem then the guided
    problem of that dimension, and the two problems of a dimension are built
    on the same model instance and on the same simulated data (the data
    drawn at that iteration). *)
Theorem models_share_model_and_data (ds : list Z) :
  NoDup ds ->
  models new_ssm simulate ds =
    flat_map (fun p => entries_of new_ssm simulate (fst p) (snd p))
             (combine (seq 0 (List.length ds)) ds).
Proof.
  intros Hds. unfold models.
  rewrite (models_loop_entries ds Hds); [reflexivity|].
  intros d k _ _ [].
Qed.

Lemma od_set_keys (k : string) (v : problem SSM Data) (od : odict SSM Data) :
  NoDup (od_keys od) ->
  NoDup (od_keys (od_set k v od)) /\
  (forall k', In k' (od_keys (od_set k v od)) <-> k' = k \/ In k' (od_keys od)) /\
  List.length od <= List.length (od_set k v od) <= S (List.length od).
Proof.
  induction od as [|[k0 v0] od IH]; simpl; intros Hnd.
  - split; [repeat constructor; intros []|].
    split; [intros k'; split; [intros [H|[]]; auto | intros [H|[]]; auto]|lia].
  - inversion Hnd as [|? ? Hk0 Hnd']; subst.
    destruct (String.eqb k0 k) eqn:E.
    + apply String.eqb_eq in E. subst k0. simpl.
      split; [constructor; assumption|].
      split; [|lia].
      intros k'. split; [intros [H|H]; auto | intros [H|[H|H]]; auto].
    + apply String.eqb_neq in E.
      destruct (IH Hnd') as [IH1 [IH2 IH3]]. simpl.
      split; [|split; [|lia]].
      * constructor; [|exact IH1]. rewrite IH2. intros [H|H]; auto.
      * intros k'. rewrite IH2. split; [intros [H|[H|H]]; auto | intros [H|[H|H]]; auto].
Qed.

Lemma models_loop_any (ds : list Z) :
  forall (od : odict SSM Data) (i : nat),
    NoDup (od_keys od) ->
    NoDup (od_keys (models_loop new_ssm simulate od i ds)) /\
    (forall k, In k (od_keys (models_loop new_ssm simulate od i ds)) <->
               In k (od_keys od) \/ exists d, In d ds /\ In k (names_of d)) /\
    List.length (models_loop new_ssm simulate od i ds) <=
      List.length od + 2 * List.length ds.
Proof.
  induction ds as [|d ds IH]; intros od i Hnd; simpl.
  - split; [exact Hnd|]. split; [|lia].
    intros k. split; [auto | intros [H|[d [[] _]]]; exact H].
  - unfold models_step at 1 2 3.
    set (v1 := Bootstrap (new_ssm d) (simulate i (new_ssm d))).
    set (v2 := GuidedPF (new_ssm d) (simulate i (new_ssm d))).
    destruct (od_set_keys ("boot_" ++ fmt_i d) v1 od Hnd) as [N1 [K1 L1]].
    destruct (od_set_keys ("guided_" ++ fmt_i d) v2 _ N1) as [N2 [K2 L2]].
    destruct (IH _ (S i) N2) as [N [K L]].
    split; [exact N|]. split; [|lia].
    intros k. rewrite K, K2, K1. unfold names_of. simpl. split.
    + intros [[H|[H|H]]|[d' [Hd' Hk]]].
      * right. exists d. split; [left; reflexivity | right; left; auto].
      * right. exists d. split; [left; reflexivity | left; auto].
      * left. exact H.
      * right. exists d'. split; [right; exact Hd' | exact Hk].
    + intros [H|[d' [[<-|Hd'] Hk]]].
      * left. right. right. exact H.
      * left. destruct Hk as [<-|[<-|[]]]; auto.
      * right. exists d'. split; assumption.
Qed.

(** Lines 44-53 over any sweep, also one that repeats a dimension: the
    registry never holds a name twice, its names are exactly the two names
    of each swept dimension, and it holds at most two entries per element of
    the sweep (a repeated dimension overwrites its problems instead of
    adding new ones). *)
Theorem models_names_any_sweep (ds : list Z) :
  NoDup (od_keys (models new_ssm simulate ds)) /\
  (forall k, In k (od_keys (models new_ssm simulate ds)) <->
             exists d, In d ds /\
               (k = ("boot_" ++ fmt_i d)%string \/
                k = ("guided_" ++ fmt_i d)%string)) /\
  List.length (models new_ssm simulate ds) <= 2 * List.length ds.
Proof.
  unfold models.
  destruct (models_loop_any ds [] 0 (NoDup_nil _)) as [N [K L]].
  split; [exact N|]. split; [|exact L].
  intros k. rewrite K. unfold names_of. simpl. split.
  - intros [[]|[d [Hd [H|[H|[]]]]]]; exists d; auto.
  - intros [d [Hd [H|H]]]; right; exists d; auto.
Qed.

End RegistryContent.

Lemma models_share_model_and_data_witness :
  models (fun d => d) (fun i m => (i, m)) dims =
    flat_map (fun p => entries_of (fun d => d) (fun i m => (i, m)) (fst p) (snd p))
             (combine (seq 0 (List.length dims)) dims).
Proof.
  apply (models_share_model_and_data Z (nat * Z)%type
           (fun d => d) (fun i m => (i, m)) dims).
  repeat constructor; simpl; intuition discriminate.
Defined.

(** A sweep that repeats dimension 5: four names, not six, and the
    problems of dimension 5 hold the data of the later iteration. *)
Example models_repeated_dimension :
  models (fun d => d) (fun i m => (i, m)) [5; 10; 5]%Z =
  [("boot_5", Bootstrap 5%Z (2, 5%Z)); ("guided_5", GuidedPF 5%Z (2, 5%Z));
   ("boot_10", Bootstrap 10%Z (1, 10%Z)); ("guided_10", GuidedPF 10%Z (1, 10%Z))].
Proof. reflexivity. Qed.

(** ** Gathering the estimates of a cell *)

Lemma estimate_raises (t : nat) (r : record) (x : exn) :
  estimate t r = Raise x ->
  x = IndexError /\
  (List.length (r_moments r) <= t \/
   exists m, nth_error (r_moments r) t = Some m /\ mean m = []).
Proof.
  unfold estimate. destruct (nth_error (r_moments r) t) as [m|] eqn:E.
  - destruct (mean m) eqn:Em; [|discriminate].
    intros H. injection H as <-. split; [reflexivity|].
    right. exists m. split; [reflexivity | exact Em].
  - intros H. injection H as <-. split; [reflexivity|].
    left. apply nth_error_None. exact E.
Qed.

Lemma map_outcome_ok_map (t : nat) (l : list record) (xs : list npfloat) :
  map_outcome (estimate t) l = Ok xs -> xs = map (estimate_or_nan t) l.
Proof.
  revert xs. induction l as [|r l IH]; simpl; intros xs H.
  - injection H as <-. reflexivity.
  - unfold estimate_or_nan at 1. destruct (estimate t r) as [x|e]; [|discriminate].
    destruct (map_outcome (estimate t) l) as [bs|e]; [|discriminate].
    injection H as <-. rewrite (IH bs eq_refl). reflexivity.
Qed.

(** Lines 65-69.  When gathering the estimates of a cell succeeds, it
    yields one estimate per run selected for the cell, in the order of the
    collection; when it raises, the exception is an IndexError and some run
    selected for the cell has no moment at index [t] or an empty mean
    there. *)
Theorem est_gathers (results : list record) (d : Z) (t : nat) (k : string)
    (q : bool) :
  (forall l, est results d t k q = Ok l ->
     l = map (estimate_or_nan t) (filter (selected d k q) results) /\
     List.length l = List.length (filter (selected d k q) results) /\
     forall r, In r results -> selected d k q r = true ->
       exists x, estimate t r = Ok x /\ In x l) /\
  (forall e, est results d t k q = Raise e ->
     e = IndexError /\
     exists r, In r results /\ selected d k q r = true /\
       (List.length (r_moments r) <= t \/
        exists m, nth_error (r_moments r) t = Some m /\ mean m = [])).
Proof.
  unfold est. split.
  - intros l Hl.
    assert (Heq := map_outcome_ok_map t _ l Hl).
    split; [exact Heq|]. split; [rewrite Heq; apply length_map|].
    intros r Hr Hsel.
    assert (Hin : In r (filter (selected d k q) results))
      by (apply filter_In; split; assumption).
    destruct (proj1 (map_outcome_ok_iff (estimate t) _) (ex_intro _ l Hl) r Hin)
      as [x Hx].
    exists x. split; [exact Hx|]. rewrite Heq.
    replace x with (estimate_or_nan t r)
      by (unfold estimate_or_nan; rewrite Hx; reflexivity).
    apply in_map. exact Hin.
  - intros e He. apply map_outcome_raises in He.
    destruct He as [r [Hr Hx]]. apply filter_In in Hr. destruct Hr as [Hr Hsel].
    destruct (estimate_raises t r e Hx) as [-> Hcause].
    split; [reflexivity|]. exists r. auto.
Qed.

(** ** An empty grid *)

Lemma aggregate_effect_rows_ok (results : list record) (ds : list Z) (nT : nat) :
  eff_out (aggregate_effect results ds nT) = Ok tt ->
  eff_rows (aggregate_effect results ds nT) = spec_rows results ds nT.
Proof.
  unfold aggregate_effect, spec_rows, grid.
  apply (eff_concat_prefix
    (fun d => eff_concat (map (fun t => block_effect results d t) (range nT)))
    (fun d => flat_map (fun t => map (spec_row results d t) non_reference) (range nT))).
  intros d _.
  apply (eff_concat_prefix (fun t => block_effect results d t)
    (fun t => map (spec_row results d t) non_reference)).
  intros t _. apply block_effect_prefix.
Qed.

(** Lines 61-80 raise the KeyError of [df['fk']] exactly when the grid is
    empty (no dimension in the sweep, or a horizon of zero): the frame built
    from an empty [results_mse] has no column.  With a non-empty grid they
    return a table of [3 * |ds| * nT] rows or raise the IndexError of
    line 65. *)
Theorem empty_grid_key_error (results : list record) (ds : list Z) (nT : nat)
    (s0 : globals) :
  (fst (format_results results ds nT s0) = Raise (KeyError "fk") <->
   ds = [] \/ nT = 0) /\
  (ds <> [] -> nT <> 0 ->
   fst (format_results results ds nT s0) = Raise IndexError \/
   exists tbl, fst (format_results results ds nT s0) = Ok tbl /\
               List.length tbl = List.length ds * nT * 3).
Proof.
  rewrite format_results_run, aggregate_run. unfold apply_effect.
  cbn [fst snd results_mse app].
  assert (Hlen : List.length (spec_rows results ds nT) = List.length ds * nT * 3).
  { unfold spec_rows. apply length_grid. intros d t. reflexivity. }
  assert (Hben : benign (eff_out (aggregate_effect results ds nT))).
  { assert (H := aggregate_benign results ds nT s0).
    rewrite aggregate_run in H. exact H. }
  assert (Hok := aggregate_effect_rows_ok results ds nT).
  destruct (eff_out (aggregate_effect results ds nT)) as [[]|x] eqn:E.
  - rewrite (Hok eq_refl). cbn [fst]. split.
    + split.
      * intros H. destruct (spec_rows results ds nT) as [|r rows] eqn:Er;
          [|discriminate].
        simpl in Hlen. destruct ds as [|d ds']; [left; reflexivity|].
        right. simpl in Hlen. lia.
      * intros H. assert (Hz : List.length (spec_rows results ds nT) = 0).
        { rewrite Hlen. destruct H as [-> | ->]; simpl; lia. }
        destruct (spec_rows results ds nT); [reflexivity | discriminate].
    + intros Hds HnT. right.
      destruct (spec_rows results ds nT) as [|r rows] eqn:Er.
      * exfalso. simpl in Hlen. destruct ds as [|d ds']; [contradiction|].
        simpl in Hlen. lia.
      * eexists. split; [reflexivity|]. rewrite length_map. exact Hlen.
  - destruct Hben as [H|H]; [discriminate|]. injection H as ->. cbn [fst]. split.
    + split; [discriminate|].
      intros H. exfalso.
      assert (Hall : eff_out (aggregate_effect results ds nT) = Ok tt).
      { apply aggregate_effect_out_ok. intros d t c Hd Ht _.
        destruct H as [-> | ->]; [destruct Hd | lia]. }
      rewrite E in Hall. discriminate.
    + intros _ _. left. reflexivity.
Qed.

(** ** The sweep *)

Lemma range_count (a b s : Z) (i : nat) :
  (0 < s)%Z ->
  (i < Z.to_nat ((b - a + s - 1) / s) <-> (a + s * Z.of_nat i < b)%Z).
Proof.
  intros Hs. split.
  - intros H.
    assert (Hq : (Z.of_nat i + 1 <= (b - a + s - 1) / s)%Z) by lia.
    assert (Hm := Z.mul_div_le (b - a + s - 1) s Hs).
    assert (s * (Z.of_nat i + 1) <= s * ((b - a + s - 1) / s))%Z
      by (apply Z.mul_le_mono_nonneg_l; lia).
    lia.
  - intros H.
    assert (Hq : (Z.of_nat i + 1 <= (b - a + s - 1) / s)%Z)
      by (apply Z.div_le_lower_bound; lia).
    lia.
Qed.

(** [range(a, b, s)] with a positive step, as line 41 uses it: its elements
    are the [a + s*i] with [i >= 0] that lie in [a, b), each once; so a
    sweep built this way never repeats a dimension. *)
Theorem py_range_spec (a b s : Z) :
  (0 < s)%Z ->
  (forall x, In x (py_range a b s) <->
     (a <= x < b)%Z /\ exists i, (0 <= i)%Z /\ x = (a + s * i)%Z) /\
  NoDup (py_range a b s).
Proof.
  intros Hs. unfold py_range. split.
  - intros x. rewrite in_map_iff. split.
    + intros [i [<- Hi]]. apply in_seq in Hi.
      assert (H : i < Z.to_nat ((b - a + s - 1) / s)) by lia.
      apply (range_count a b s i Hs) in H.
      split; [nia|]. exists (Z.of_nat i). split; [lia | reflexivity].
    + intros [[Hlo Hhi] [i [Hi ->]]].
      exists (Z.to_nat i). rewrite Z2Nat.id by exact Hi.
      split; [reflexivity|]. apply in_seq.
      assert (H : Z.to_nat i < Z.to_nat ((b - a + s - 1) / s)).
      { apply (range_count a b s (Z.to_nat i) Hs).
        rewrite Z2Nat.id by exact Hi. exact Hhi. }
      lia.
  - apply Finite.Injective_map_NoDup_in; [|apply seq_NoDup].
    intros i j _ _ H. nia.
Qed.

Lemma py_range_spec_witness :
  (forall x, In x dims <->
     (5 <= x < 21)%Z /\ exists i, (0 <= i)%Z /\ x = (5 + 5 * i)%Z) /\
  NoDup dims.
Proof.
  exact (py_range_spec 5 21 5 eq_refl).
Defined.

(** ** Estimates that are not finite *)

Lemma np_sum_nan (l : list npfloat) : In NaN l -> np_sum l = NaN.
Proof.
  unfold np_sum. induction l as [|a l IH]; simpl; [intros []|].
  intros [->|H]; [reflexivity|]. rewrite (IH H). apply np_add_nan_r.
Qed.

Lemma np_sum_pinf (l : list npfloat) : np_sum l = PInf -> In PInf l.
Proof.
  unfold np_sum. induction l as [|a l IH]; simpl; [discriminate|].
  destruct a; [|left; reflexivity| |];
    destruct (fold_right np_add (Fin 0) l); simpl; try discriminate;
    intros _; right; apply IH; reflexivity.
Qed.

Lemma np_sum_ninf (l : list npfloat) : np_sum l = NInf -> In NInf l.
Proof.
  unfold np_sum. induction l as [|a l IH]; simpl; [discriminate|].
  destruct a; [| |left; reflexivity|];
    destruct (fold_right np_add (Fin 0) l); simpl; try discriminate;
    intros _; right; apply IH; reflexivity.
Qed.

Lemma np_sum_not_finite (l : list npfloat) (x : npfloat) :
  In x l -> is_finite x = false -> is_finite (np_sum l) = false.
Proof.
  unfold np_sum. induction l as [|a l IH]; simpl; [intros []|].
  intros [->|H] Hx.
  - destruct x; [discriminate| | |];
      destruct (fold_right np_add (Fin 0) l); reflexivity.
  - specialize (IH H Hx).
    destruct (fold_right np_add (Fin 0) l); [discriminate| | |];
      destruct a; reflexivity.
Qed.

Lemma np_mean_cases (l : list npfloat) :
  l <> [] -> np_mean l = np_div_count (np_sum l) (List.length l).
Proof. destruct l; [contradiction | reflexivity]. Qed.

(** The variance of estimates one of which is not finite is not-a-number. *)
Lemma np_var_not_finite (l : list npfloat) (x : npfloat) :
  In x l -> is_finite x = false -> np_var l = NaN.
Proof.
  intros Hin Hx.
  assert (Hne : l <> []) by (intros ->; destruct Hin).
  assert (Hs := np_sum_not_finite l x Hin Hx).
  assert (Hnan : In NaN (map (fun y => np_square (np_sub y (np_mean l))) l)).
  { rewrite (np_mean_cases l Hne).
    destruct (np_sum l) as [s| | |] eqn:Es; [discriminate| | |];
      cbn [np_div_count].
    - apply np_sum_pinf in Es.
      apply (in_map (fun y => np_square (np_sub y PInf))) in Es. exact Es.
    - apply np_sum_ninf in Es.
      apply (in_map (fun y => np_square (np_sub y NInf))) in Es. exact Es.
    - apply (in_map (fun y => np_square (np_sub y NaN))) in Hin.
      destruct x; exact Hin. }
  unfold np_var.
  rewrite np_mean_cases by (destruct l; [contradiction | discriminate]).
  rewrite (np_sum_nan _ Hnan). reflexivity.
Qed.

(** An estimate of the reference category that is not finite (an infinity
    or a not-a-number left by a run) raises nothing, and makes the gain of
    every row of that dimension and time not-a-number, whatever the
    estimates of the row's own category. *)
Theorem non_finite_reference_gives_nan (results : list record) (ds : list Z)
    (nT : nat) (s0 : globals) (r : row) (l0 : list npfloat) (x : npfloat) :
  In r (results_mse (snd (aggregate results ds nT s0))) ->
  est results (row_dim r) (row_t r) "guided" false = Ok l0 ->
  In x l0 -> is_finite x = false ->
  row_log10_gain r = NaN.
Proof.
  intros Hr H0 Hx Hfin.
  destruct (row_is_spec_row results ds nT s0 r Hr) as [_ [_ [_ Hg]]].
  rewrite Hg. unfold spec_log10_gain, spec_base_mse, values. rewrite H0.
  rewrite (np_var_not_finite l0 x Hx Hfin). apply np_add_nan_r.
Qed.

Lemma scenario_infinite_row :
  In {| row_fk := "guided"; row_dim := 5; row_qmc := true; row_t := 0;
        row_log10_gain := spec_log10_gain scenario_infinite 5 0 "guided" true |}
     (results_mse (snd (aggregate scenario_infinite [5%Z] 1 init_globals))).
Proof.
  rewrite (proj1 (proj2 (aggregate_complete 1 scenario_infinite [5%Z]
                           init_globals eq_refl))).
  left. reflexivity.
Qed.

Lemma non_finite_reference_gives_nan_witness :
  spec_log10_gain scenario_infinite 5 0 "guided" true = NaN.
Proof.
  exact (non_finite_reference_gives_nan scenario_infinite [5%Z] 1 init_globals
           _ [Fin 1; PInf] PInf scenario_infinite_row eq_refl
           (or_intror (or_introl eq_refl)) eq_refl).
Defined.

(** ** The gain does not depend on the unit of the estimates *)








Open Scope R_scope.






Close Scope R_scope.




